(** * check-imports.py: the import checker for TypeScript sources

    A shallow embedding of [ImportChecker] (src/check-imports.py): the four
    extraction patterns and the two stripping patterns as pattern terms run
    by a backtracking matcher with Python's [re] priorities, the string
    methods the code calls, the insertion-ordered dictionary of bindings,
    and the scan that accumulates the statistics. *)

From Stdlib Require Import String Ascii List ListSet Sorted NArith Bool Arith Lia.
From Stdlib Require Import DecimalString.
Import ListNotations.

(** ** Text

    A Python [str] is a sequence of code points. *)

Definition char := N.
Definition str := list char.
Bind Scope N_scope with char.

Definition chr (a : ascii) : char := N_of_ascii a.

Definition text (s : string) : str :=
  List.map chr (list_ascii_of_string s).

Definition str_eq_dec : forall a b : str, {a = b} + {a <> b} :=
  list_eq_dec N.eq_dec.

Definition str_eqb (a b : str) : bool :=
  if str_eq_dec a b then true else false.

(** [s.startswith(p)] *)
Fixpoint startswith (p s : str) : bool :=
  match p, s with
  | [], _ => true
  | _ :: _, [] => false
  | a :: p', b :: s' => N.eqb a b && startswith p' s'
  end.

(** [s.split(sep)] for a non-empty separator: the pieces between the
    occurrences of [sep], found left to right without overlap.  [skip]
    counts the characters of a separator still to pass over, [cur] holds
    the current piece, last character first. *)
Fixpoint split_from (sep : str) (skip : nat) (cur : str) (s : str) : list str :=
  match s with
  | [] => [rev cur]
  | x :: s' =>
      match skip with
      | S k => split_from sep k cur s'
      | O => if startswith sep s
             then rev cur :: split_from sep (length sep - 1) [] s'
             else split_from sep 0 (x :: cur) s'
      end
  end.

Definition split (sep s : str) : list str := split_from sep 0 [] s.

(** The sentinel of a bare import, the marker of a namespace binding, the
    single and the double quote, and the description of a finding:
    item from 'module', with the single quotes written. *)
Definition side_effect : str := text "__side_effect__".
Definition star_as : str := text "* as ".
Definition quote1 : char := chr "'".
Definition quote2 : char := 34.

Definition describe (item module : str) : str :=
  item ++ text " from '" ++ module ++ text "'".

(** ** Character classes and patterns *)

Inductive cls :=
| Is (c : char)          (* a literal character *)
| Space                  (* \s *)
| Word                   (* \w *)
| Dot                    (* .  : anything but a newline *)
| NoneOf (cs : str)      (* [^...] *)
| AnyOf (cs : str).      (* [...] *)

Inductive quant := One | Opt | Star | Plus | LazyStar.

(** A pattern is a sequence of items: a character class under a
    quantifier, captured as a group or not, or the assertion \b.
    Every pattern of the source has this shape, and its groups are
    numbered in the order they are written. *)
Inductive atom :=
| Chr (q : quant) (k : cls) (grp : bool)
| Boundary.

Definition pattern := list atom.

Definition lit (s : string) : pattern :=
  List.map (fun c => Chr One (Is c) false) (text s).
Definition lit_str (s : str) : pattern :=
  List.map (fun c => Chr One (Is c) false) s.
Definition one k := Chr One k false.
Definition opt k := Chr Opt k false.
Definition star k := Chr Star k false.
Definition plus k := Chr Plus k false.
Definition lazy_star k := Chr LazyStar k false.
Definition group_plus k := Chr Plus k true.

Definition quotes : str := [quote1; quote2].

(** The patterns of the source; [q] stands for its class of the two quote
    characters.

    named_pattern:  import\s*\{\s*([^}]+)\s*\}\s*from\s*[q]([^q]+)[q] *)
Definition named_pattern : pattern :=
  lit "import" ++ [star Space; one (Is (chr "{")); star Space;
                   group_plus (NoneOf [chr "}"]); star Space;
                   one (Is (chr "}")); star Space] ++
  lit "from" ++ [star Space; one (AnyOf quotes);
                 group_plus (NoneOf quotes); one (AnyOf quotes)].

(** namespace_pattern:  import\s*\*\s*as\s+(\w+)\s+from\s+[q]([^q]+)[q] *)
Definition namespace_pattern : pattern :=
  lit "import" ++ [star Space; one (Is (chr "*")); star Space] ++
  lit "as" ++ [plus Space; group_plus Word; plus Space] ++
  lit "from" ++ [plus Space; one (AnyOf quotes);
                 group_plus (NoneOf quotes); one (AnyOf quotes)].

(** default_pattern:  import\s+(\w+)\s+from\s+[q]([^q]+)[q] *)
Definition default_pattern : pattern :=
  lit "import" ++ [plus Space; group_plus Word; plus Space] ++
  lit "from" ++ [plus Space; one (AnyOf quotes);
                 group_plus (NoneOf quotes); one (AnyOf quotes)].

(** side_effect_pattern:  import\s+[q]([^q]+)[q] *)
Definition side_effect_pattern : pattern :=
  lit "import" ++ [plus Space; one (AnyOf quotes);
                   group_plus (NoneOf quotes); one (AnyOf quotes)].

(** first pattern of re.sub:  import\s+.*?from\s+[q][^q]+[q];? *)
Definition strip_from_pattern : pattern :=
  lit "import" ++ [plus Space; lazy_star Dot] ++
  lit "from" ++ [plus Space; one (AnyOf quotes); plus (NoneOf quotes);
                 one (AnyOf quotes); opt (Is (chr ";"))].

(** second pattern of re.sub:  import\s+[q][^q]+[q];? *)
Definition strip_bare_pattern : pattern :=
  lit "import" ++ [plus Space; one (AnyOf quotes); plus (NoneOf quotes);
                   one (AnyOf quotes); opt (Is (chr ";"))].

(** \b{re.escape(name)}\b: the escaped name matches itself, character
    for character. *)
Definition word_pattern (name : str) : pattern :=
  Boundary :: lit_str name ++ [Boundary].

(** A match: the groups in order, and the input left after it. *)
Definition result := (list str * str)%type.

Definition group (n : nat) (gs : list str) : str := nth (n - 1) gs [].

(** The tables of a text without characters beyond ASCII. *)
Definition ascii_only (c : char) : bool := false.

Section Checker.

(** Python classifies the characters beyond ASCII from the Unicode
    database, which the repository does not hold: the two tables are
    taken as given. *)
Variable unicode_isspace : char -> bool.
Variable unicode_isalnum : char -> bool.

(** \s, and [str.isspace] of one character *)
Definition isspace (c : char) : bool :=
  if (c <? 128)%N
  then ((9 <=? c) && (c <=? 13) || (28 <=? c) && (c <=? 32))%N
  else unicode_isspace c.

(** \w *)
Definition isword (c : char) : bool :=
  if (c <? 128)%N
  then ((48 <=? c) && (c <=? 57) || (65 <=? c) && (c <=? 90)
        || (97 <=? c) && (c <=? 122) || (c =? 95))%N
  else unicode_isalnum c.

Definition mem (c : char) (cs : str) : bool := existsb (N.eqb c) cs.

Definition cls_match (k : cls) (c : char) : bool :=
  match k with
  | Is a => N.eqb a c
  | Space => isspace c
  | Word => isword c
  | Dot => negb (N.eqb c 10)
  | NoneOf cs => negb (mem c cs)
  | AnyOf cs => mem c cs
  end.

(** [s.strip()] *)
Fixpoint lstrip (s : str) : str :=
  match s with
  | c :: s' => if isspace c then lstrip s' else s
  | [] => []
  end.

Definition rstrip (s : str) : str := rev (lstrip (rev s)).
Definition strip (s : str) : str := rstrip (lstrip s).

(** *** The matcher

    [prev] is the character before the current position, for \b.  A
    continuation receives the position after an item; an item that can
    match in several ways tries them in the order of [re]: a greedy
    quantifier the longest first, a lazy one the shortest first. *)
Definition cont := option char -> str -> option result.

Definition isword_at (c : option char) : bool :=
  match c with Some x => isword x | None => false end.

Definition at_boundary (prev : option char) (s : str) : bool :=
  xorb (isword_at prev) (isword_at (hd_error s)).

Definition emit (grp : bool) (k : cont) (acc : str) : cont :=
  fun prev s =>
    match k prev s with
    | Some (gs, rest) => Some (if grp then rev acc :: gs else gs, rest)
    | None => None
    end.

Fixpoint greedy (P : char -> bool) (fin : str -> cont) (acc : str)
  (prev : option char) (s : str) : option result :=
  match s with
  | x :: s' =>
      if P x
      then match greedy P fin (x :: acc) (Some x) s' with
           | Some r => Some r
           | None => fin acc prev s
           end
      else fin acc prev s
  | [] => fin acc prev s
  end.

Fixpoint lazy (P : char -> bool) (fin : str -> cont) (acc : str)
  (prev : option char) (s : str) : option result :=
  match fin acc prev s with
  | Some r => Some r
  | None =>
      match s with
      | x :: s' => if P x then lazy P fin (x :: acc) (Some x) s' else None
      | [] => None
      end
  end.

Definition step (a : atom) (k : cont) : cont :=
  fun prev s =>
    match a with
    | Boundary => if at_boundary prev s then k prev s else None
    | Chr q c grp =>
        let P := cls_match c in
        let fin := emit grp k in
        match q with
        | Star => greedy P fin [] prev s
        | LazyStar => lazy P fin [] prev s
        | Plus =>
            match s with
            | x :: s' => if P x then greedy P fin [x] (Some x) s' else None
            | [] => None
            end
        | One =>
            match s with
            | x :: s' => if P x then fin [x] (Some x) s' else None
            | [] => None
            end
        | Opt =>
            match s with
            | x :: s' =>
                if P x
                then match fin [x] (Some x) s' with
                     | Some r => Some r
                     | None => fin [] prev s
                     end
                else fin [] prev s
            | [] => fin [] prev s
            end
        end
    end.

(** [run p prev s]: the match of [p] that starts at the head of [s]. *)
Fixpoint run (p : pattern) : cont :=
  match p with
  | [] => fun _ s => Some ([], s)
  | a :: p' => step a (run p')
  end.

(** [re.search(p, s)]: the match at the leftmost position that has one. *)
Fixpoint search_from (p : pattern) (prev : option char) (s : str)
  : option result :=
  match run p prev s with
  | Some r => Some r
  | None =>
      match s with
      | x :: s' => search_from p (Some x) s'
      | [] => None
      end
  end.

Definition search (p : pattern) (s : str) : bool :=
  match search_from p None s with Some _ => true | None => false end.

(** [re.finditer(p, s)]: the matches left to right without overlap, each
    with the position where it starts.  [skip] counts the characters of
    the last match still to pass over. *)
Fixpoint finditer_from (p : pattern) (pos skip : nat) (prev : option char)
  (s : str) : list (nat * list str) :=
  match skip with
  | S k =>
      match s with
      | x :: s' => finditer_from p (S pos) k (Some x) s'
      | [] => []
      end
  | O =>
      match run p prev s with
      | Some (gs, rest) =>
          (pos, gs) ::
          match s with
          | x :: s' =>
              finditer_from p (S pos) (length s - length rest - 1) (Some x) s'
          | [] => []
          end
      | None =>
          match s with
          | x :: s' => finditer_from p (S pos) 0 (Some x) s'
          | [] => []
          end
      end
  end.

Definition finditer (p : pattern) (s : str) : list (nat * list str) :=
  finditer_from p 0 0 None s.

(** [re.sub(p, '', s)]: the text outside the matches. *)
Fixpoint sub_from (p : pattern) (skip : nat) (prev : option char) (s : str)
  : str :=
  match s with
  | [] => []
  | x :: s' =>
      match skip with
      | S k => sub_from p k (Some x) s'
      | O =>
          match run p prev s with
          | Some (_, rest) =>
              match length s - length rest with
              | O => x :: sub_from p 0 (Some x) s'
              | S n => sub_from p n (Some x) s'
              end
          | None => x :: sub_from p 0 (Some x) s'
          end
      end
  end.

Definition sub (p : pattern) (s : str) : str := sub_from p 0 None s.

(** ** The bindings of a file

    [imports] is a [defaultdict(list)]: the keys keep the order in which
    they were first used, and [imports[module].extend(items)] creates the
    key at the end when it is new. *)
Definition dict := list (str * list str).

Fixpoint dict_extend (module : str) (items : list str) (d : dict) : dict :=
  match d with
  | [] => [(module, items)]
  | (k, v) :: d' =>
      if str_eqb k module then (k, v ++ items) :: d'
      else (k, v) :: dict_extend module items d'
  end.

Definition dict_append (module : str) (item : str) (d : dict) : dict :=
  dict_extend module [item] d.

(** [imports.get(module, [])] *)
Fixpoint dict_get (module : str) (d : dict) : list str :=
  match d with
  | [] => []
  | (k, v) :: d' => if str_eqb k module then v else dict_get module d'
  end.

Definition keys (d : dict) : list str := List.map fst d.

(** The entries of one named declaration:
    [item.strip().split(' as ')[0].strip() for item in imported_items.split(',')] *)
Definition clean_item (item : str) : str :=
  strip (nth 0 (split (text " as ") (strip item)) []).

Definition named_items (imported_items : str) : list str :=
  List.map clean_item (split (text ",") imported_items).

Definition extract_imports (content : str) : dict :=
  let imports : dict := [] in
  let imports :=
    fold_left (fun imports m =>
                 let imported_items := group 1 (snd m) in
                 let module := group 2 (snd m) in
                 dict_extend module (named_items imported_items) imports)
              (finditer named_pattern content) imports in
  let imports :=
    fold_left (fun imports m =>
                 let namespace := group 1 (snd m) in
                 let module := group 2 (snd m) in
                 dict_append module (star_as ++ namespace) imports)
              (finditer namespace_pattern content) imports in
  let imports :=
    fold_left (fun imports m =>
                 let default_import := group 1 (snd m) in
                 let module := group 2 (snd m) in
                 dict_append module default_import imports)
              (finditer default_pattern content) imports in
  let imports :=
    fold_left (fun imports m =>
                 let module := group 1 (snd m) in
                 dict_append module side_effect imports)
              (finditer side_effect_pattern content) imports in
  imports.

(** The text in which uses are looked for. *)
Definition content_without_imports (content : str) : str :=
  sub strip_bare_pattern (sub strip_from_pattern content).

(** The test of one binding: [true] when the binding is reported. *)
Definition unused_item (cwi item : str) : bool :=
  if str_eqb item side_effect then false
  else if startswith star_as item then
    let namespace := nth 1 (split star_as item) [] in
    negb (search (word_pattern namespace) cwi)
  else negb (search (word_pattern item) cwi).

Definition find_unused_imports (content : str) (imports : dict) : list str :=
  let cwi := content_without_imports content in
  fold_left (fun unused (entry : str * list str) =>
               let (module, items) := entry in
               fold_left (fun unused item =>
                            if unused_item cwi item
                            then unused ++ [describe item module]
                            else unused)
                         items unused)
            imports [].

Definition find_duplicate_imports (imports : dict) : list str :=
  fold_left (fun duplicates (entry : str * list str) =>
               let (module, items) := entry in
               fst (fold_left (fun (st : list str * set str) item =>
                                 let (duplicates, seen) := st in
                                 ((if set_mem str_eq_dec item seen
                                      && negb (str_eqb item side_effect)
                                   then duplicates ++ [describe item module]
                                   else duplicates),
                                  set_add str_eq_dec item seen))
                              items (duplicates, empty_set str)))
            imports [].

(** ** The scan

    [self.results] is threaded through [check_file] and [scan_directory]
    as the state. *)
Record Stats := {
  total_files : nat;
  files_with_unused : nat;
  files_with_duplicates : nat;
  total_unused_imports : nat;
  total_duplicate_imports : nat
}.

Record Results := {
  unused_imports : list (str * list str);
  duplicate_imports : list (str * list str);
  stats : option Stats
}.

Definition M (A : Type) : Type := Results -> A * Results.
Definition ret {A} (a : A) : M A := fun r => (a, r).
Definition bind {A B} (c : M A) (k : A -> M B) : M B :=
  fun r => let (a, r') := c r in k a r'.
Definition get : M Results := fun r => (r, r).
Definition put (r : Results) : M unit := fun _ => (tt, r).
Definition when (b : bool) (c : M unit) : M unit := if b then c else ret tt.

Notation "x <- c ;; k" := (bind c (fun x => k))
  (at level 61, c at next level, right associativity).

(** [ImportChecker.__init__] *)
Definition init : Results :=
  {| unused_imports := []; duplicate_imports := []; stats := None |}.

(** A candidate file: its path under the root, and its text when it can
    be read. *)
Definition file := (str * option str)%type.

Definition nonempty {A} (l : list A) : bool :=
  match l with [] => false | _ => true end.

Definition check_file (f : file) : M (list str * list str) :=
  match snd f with
  | None => ret ([], [])
  | Some content =>
      let imports := extract_imports content in
      let unused := find_unused_imports content imports in
      let duplicates := find_duplicate_imports imports in
      _ <- when (nonempty unused)
             (r <- get ;;
              put {| unused_imports := unused_imports r ++ [(fst f, unused)];
                     duplicate_imports := duplicate_imports r;
                     stats := stats r |}) ;;
      _ <- when (nonempty duplicates)
             (r <- get ;;
              put {| unused_imports := unused_imports r;
                     duplicate_imports :=
                       duplicate_imports r ++ [(fst f, duplicates)];
                     stats := stats r |}) ;;
      ret (unused, duplicates)
  end.

Fixpoint scan_loop (ts_files : list file) (total_unused total_duplicates : nat)
  : M (nat * nat) :=
  match ts_files with
  | [] => ret (total_unused, total_duplicates)
  | file_path :: rest =>
      ud <- check_file file_path ;;
      scan_loop rest (total_unused + List.length (fst ud))
                (total_duplicates + List.length (snd ud))
  end.

(** [scan_directory], from the list of files the glob and the exclusions
    leave. *)
Definition scan_directory (ts_files : list file) : M unit :=
  totals <- scan_loop ts_files 0 0 ;;
  r <- get ;;
  put {| unused_imports := unused_imports r;
         duplicate_imports := duplicate_imports r;
         stats := Some {|
           total_files := List.length ts_files;
           files_with_unused :=
             List.length (filter (fun e => nonempty (snd e)) (unused_imports r));
           files_with_duplicates := List.length (duplicate_imports r);
           total_unused_imports := fst totals;
           total_duplicate_imports := snd totals |} |}.

(** The last statement of [main]: the exit status it asks for once the
    report and the script are done; without statistics the lookup
    raises. *)
Definition exit_status (r : Results) : nat :=
  match stats r with
  | Some st => if 0 <? total_unused_imports st then 1 else 0
  | None => 1
  end.


(** ** The files of a scan

    [excl in str(file_path)]: the text [excl] occurs somewhere in [s]. *)
Fixpoint contains (excl s : str) : bool :=
  startswith excl s ||
  match s with
  | [] => false
  | _ :: s' => contains excl s'
  end.

Definition default_exclude_patterns : list str :=
  [text "node_modules"; text "dist"; text "out"; text ".git"; text "coverage"].

(** A path the glob yields: its text [str(file_path)], and the file with
    its path under the root. *)
Definition candidate := (str * file)%type.

(** The first loop of [scan_directory]: [glob] gives the paths of the
    tree that match a glob pattern, in the order of the traversal. *)
Definition select_files (glob : str -> list candidate)
  (exclude_patterns : option (list str)) : list file :=
  let exclude_patterns :=
    match exclude_patterns with
    | None => default_exclude_patterns
    | Some l => l
    end in
  fold_left (fun ts_files pattern =>
               fold_left (fun ts_files (file_path : candidate) =>
                            if existsb (fun excl => contains excl (fst file_path))
                                       exclude_patterns
                            then ts_files
                            else ts_files ++ [snd file_path])
                         (glob pattern) ts_files)
            [text "**/*.ts"; text "**/*.tsx"] [].

(** [scan_directory] with its first loop. *)
Definition scan_tree (glob : str -> list candidate)
  (exclude_patterns : option (list str)) : M unit :=
  scan_directory (select_files glob exclude_patterns).

(** ** The report and the script

    What the two methods print and write, in order. *)
Inductive effect :=
| Print (line : str)
| Write (name content : str).

(** [str(n)] *)
Definition str_of_nat (n : nat) : str :=
  text (NilZero.string_of_uint (Nat.to_uint n)).

(** [sep.join(l)] *)
Definition join (sep : str) (l : list str) : str :=
  match l with
  | [] => []
  | x :: l' => x ++ flat_map (fun y => sep ++ y) l'
  end.

Definition nl : str := [10%N].
Definition rule : str := repeat (chr "=") 60.

Section Report.

(** [json.dump(self.results, f, indent=2)], of the library. *)
Variable json_dump : Results -> str.

(** Whether [open(name, 'w')] succeeds for the file [name] of the root
    directory.  It raises when the directory is missing or the file may
    not be written, and the exception is caught nowhere: the method stops
    there, and so does [main].  A file once open takes the whole text. *)
Variable writable : str -> bool.

(** [print_report]: the effects, and whether the method returns; without
    statistics it raises at the first counter it reads, and it raises
    after the last rule when the report cannot be written. *)
Definition print_report (r : Results) : list effect * bool :=
  let head :=
    [Print (nl ++ rule); Print (text "IMPORT CHECK REPORT"); Print rule;
     Print (nl ++ text "Statistics:")] in
  match stats r with
  | None => (head, false)
  | Some stats =>
      let printed :=
        head ++
        [Print (text "  Total files scanned: " ++ str_of_nat (total_files stats));
         Print (text "  Files with unused imports: "
                ++ str_of_nat (files_with_unused stats));
         Print (text "  Files with duplicate imports: "
                ++ str_of_nat (files_with_duplicates stats));
         Print (text "  Total unused imports: "
                ++ str_of_nat (total_unused_imports stats));
         Print (text "  Total duplicate imports: "
                ++ str_of_nat (total_duplicate_imports stats))] ++
        (if nonempty (unused_imports r)
         then [Print (nl ++ rule); Print (text "UNUSED IMPORTS"); Print rule] ++
              flat_map (fun entry : str * list str =>
                          Print (nl ++ text "[FILE] " ++ fst entry) ::
                          List.map (fun unused => Print (text "  [X] " ++ unused))
                                   (snd entry))
                       (unused_imports r)
         else [Print (nl ++ text "[OK] No unused imports found!")]) ++
        (if nonempty (duplicate_imports r)
         then [Print (nl ++ rule); Print (text "DUPLICATE IMPORTS"); Print rule] ++
              flat_map (fun entry : str * list str =>
                          Print (nl ++ text "[FILE] " ++ fst entry) ::
                          List.map (fun duplicate =>
                                      Print (text "  [DUP] " ++ duplicate))
                                   (snd entry))
                       (duplicate_imports r)
         else [Print (nl ++ text "[OK] No duplicate imports found!")]) ++
        [Print (nl ++ rule)] in
      let output_file := text "import-check-report.json" in
      if writable output_file
      then (printed ++
            [Write output_file (json_dump r);
             Print (nl ++ text "[SAVED] Detailed report saved to: "
                    ++ output_file)],
            true)
      else (printed, false)
  end.

(** The lines of the script, before they are joined. *)
Definition fix_script (r : Results) : list str :=
  [text "#!/bin/bash";
   text "# Auto-generated script to remove unused imports";
   text "# Review before running!" ++ nl] ++
  flat_map (fun entry : str * list str =>
              let file_path := fst entry in
              (text "# Fix " ++ file_path) ::
              List.map (fun unused =>
                          let import_name :=
                            nth 0 (split (text " from ") unused) [] in
                          text "# Remove: " ++ unused)
                       (snd entry) ++
              [[]])
           (unused_imports r).

(** [generate_fix_script]: the effects, and whether the method returns;
    it raises when the script cannot be written, before it prints. *)
Definition generate_fix_script (r : Results) : list effect * bool :=
  if nonempty (unused_imports r)
  then
    let script_path := text "fix-unused-imports.sh" in
    if writable script_path
    then ([Write script_path (join nl (fix_script r));
           Print (nl ++ text "[SCRIPT] Fix script template saved to: "
                  ++ script_path);
           Print (text "         (Review and customize before running)")],
          true)
    else ([], false)
  else ([], true).

(** [main] from the scan on: the scan of a fresh checker, the report, the
    script, and the exit status; the list holds what the report and the
    script print and write.  An exception that nothing catches ends the
    process there with status 1. *)
Definition main (ts_files : list file) : list effect * nat :=
  let r := snd (scan_directory ts_files init) in
  let (report, returned) := print_report r in
  if returned
  then
    let (script, returned) := generate_fix_script r in
    (report ++ script, if returned then exit_status r else 1)
  else (report, 1).

End Report.

(** ** Notions the statements use *)

(** The bindings the detector reports for one module: the items already
    seen, the sentinel apart. *)
Fixpoint repeats (seen : set str) (items : list str) : list str :=
  match items with
  | [] => []
  | item :: rest =>
      (if set_mem str_eq_dec item seen && negb (str_eqb item side_effect)
       then [item] else [])
      ++ repeats (set_add str_eq_dec item seen) rest
  end.

(** What [check_file] returns for a file. *)
Definition unused_of (f : file) : list str := fst (fst (check_file f init)).
Definition duplicates_of (f : file) : list str := snd (fst (check_file f init)).

(** The entries and the totals a scan accumulates from the lists of its
    files. *)
Definition entries (g : file -> list str) (ts_files : list file)
  : list (str * list str) :=
  List.map (fun f => (fst f, g f)) (filter (fun f => nonempty (g f)) ts_files).

Definition total (g : file -> list str) (ts_files : list file) : nat :=
  list_sum (List.map (fun f => List.length (g f)) ts_files).

(** A dictionary as [extract_imports] builds them: no key twice, and no
    quote inside a module specifier. *)
Definition quote_free (m : str) : Prop := ~ In quote1 m.

Definition well_formed (imports : dict) : Prop :=
  NoDup (keys imports) /\ Forall quote_free (keys imports).

Definition count (x : str) (l : list str) : nat := count_occ str_eq_dec l x.

(** *** What a match says about the text

    [advance prev u]: the character before the position reached after
    reading [u]. *)
Definition advance (prev : option char) (u : str) : option char :=
  fold_left (fun _ x => Some x) u prev.

Definition quant_ok (q : quant) (n : nat) : Prop :=
  match q with
  | One => n = 1
  | Opt => n <= 1
  | Plus => 1 <= n
  | Star | LazyStar => True
  end.

(** The text [u] an item reads at the head of [s]. *)
Definition consumes (a : atom) (prev : option char) (s u : str) : Prop :=
  match a with
  | Boundary => u = [] /\ at_boundary prev s = true
  | Chr q k _ =>
      Forall (fun c => cls_match k c = true) u /\ quant_ok q (List.length u)
  end.

Definition captures (a : atom) (u : str) (gs : list str) : list str :=
  match a with
  | Chr _ _ true => u :: gs
  | _ => gs
  end.

(** [matches p prev s gs rest]: [s] is a text of the shape [p] followed by
    [rest], and [gs] are the texts of its groups. *)
Fixpoint matches (p : pattern) (prev : option char) (s : str)
  (gs : list str) (rest : str) : Prop :=
  match p with
  | [] => gs = [] /\ rest = s
  | a :: p' =>
      exists u s' gs',
        s = u ++ s' /\ consumes a prev s u /\
        matches p' (advance prev u) s' gs' rest /\
        gs = captures a u gs'
  end.

(** The classes of the groups of a pattern, in order. *)
Definition group_classes (p : pattern) : list cls :=
  flat_map (fun a => match a with Chr _ k true => [k] | _ => [] end) p.

(** *** Declaration order

    The declarations of a file, of any of the four shapes: where each
    starts, its module specifier and its bindings. *)
Definition declaration := (nat * (str * list str))%type.

Definition declarations (content : str) : list declaration :=
  List.map (fun m => (fst m, (group 2 (snd m), named_items (group 1 (snd m)))))
           (finditer named_pattern content) ++
  List.map (fun m => (fst m, (group 2 (snd m), [star_as ++ group 1 (snd m)])))
           (finditer namespace_pattern content) ++
  List.map (fun m => (fst m, (group 2 (snd m), [group 1 (snd m)])))
           (finditer default_pattern content) ++
  List.map (fun m => (fst m, (group 1 (snd m), [side_effect])))
           (finditer side_effect_pattern content).

Fixpoint insert_by_position (d : declaration) (l : list declaration)
  : list declaration :=
  match l with
  | [] => [d]
  | e :: l' => if fst d <? fst e then d :: l else e :: insert_by_position d l'
  end.

Definition by_position (l : list declaration) : list declaration :=
  fold_right insert_by_position [] l.

(** The bindings of a module with its declarations, of whatever shape,
    taken in the order of their positions in the file text. *)
Definition declaration_order (content module : str) : list str :=
  concat (List.map (fun d => snd (snd d))
            (filter (fun d => str_eqb (fst (snd d)) module)
                    (by_position (declarations content)))).

(** The bindings one pass of [extract_imports] adds to a module. *)
Definition pass (p : pattern) (module_group : nat)
  (bindings : list str -> list str) (content module : str) : list str :=
  concat (List.map (fun m => bindings (snd m))
            (filter (fun m => str_eqb (group module_group (snd m)) module)
                    (finditer p content))).


(** *** Whole words

    An occurrence of [name] in [s] with no character of a word next to
    it on either side. *)
Definition whole_word_in (name s : str) : Prop :=
  exists pre post,
    s = pre ++ name ++ post /\
    isword_at (advance None pre) = false /\
    isword_at (hd_error post) = false.

Definition starts_and_ends_in_word (name : str) : Prop :=
  isword_at (hd_error name) = true /\ isword_at (advance None name) = true.

(** The characters with a meaning of their own in a pattern. *)
Definition metachars : str := text ".^$*+?{}[]\|()".

Definition no_metachars (name : str) : Prop :=
  Forall (fun c => ~ In c metachars) name.

(** The identifier [find_unused_imports] looks for: the name after the
    marker for a namespace binding, the item otherwise. *)
Definition usage_key (item : str) : str :=
  if startswith star_as item then nth 1 (split star_as item) [] else item.

(** [a] is the text of [s] before the leftmost occurrence of [sep]. *)
Definition first_occurrence (sep a s : str) : Prop :=
  (exists b, s = a ++ sep ++ b) /\
  forall pre post, s = pre ++ sep ++ post -> List.length a <= List.length pre.

(** *** Notions of the further properties *)

(** The quantifier and the class of each group of a pattern, in order. *)
Definition group_specs (p : pattern) : list (quant * cls) :=
  flat_map (fun a => match a with Chr q k true => [(q, k)] | _ => [] end) p.

(** [l1] is [l2] with some of its elements left out. *)
Inductive subseq {A : Type} : list A -> list A -> Prop :=
| subseq_nil : subseq [] []
| subseq_skip x l1 l2 : subseq l1 l2 -> subseq l1 (x :: l2)
| subseq_take x l1 l2 : subseq l1 l2 -> subseq (x :: l1) (x :: l2).

(** The text [e] occurs in [s]. *)
Definition occurs (e s : str) : Prop := exists pre post, s = pre ++ e ++ post.

(** The lines of a text: the pieces between its line breaks. *)
Definition lines (s : str) : list str := split nl s.

(** What the prints of a list of effects send to the standard output:
    [print] ends the text of each with a line break. *)
Definition stdout (es : list effect) : str :=
  flat_map (fun e => match e with
                     | Print s => s ++ nl
                     | Write _ _ => []
                     end) es.

(** The lines of the output that start with [p]. *)
Definition printed_lines (p : str) (es : list effect) : list str :=
  filter (startswith p) (lines (stdout es)).

(** The lines of each print, one print after the other. *)
Definition print_lines (es : list effect) : list str :=
  flat_map (fun e => match e with
                     | Print s => lines s
                     | Write _ _ => []
                     end) es.

(** The files written. *)
Definition written (es : list effect) : list (str * str) :=
  flat_map (fun e => match e with
                     | Print _ => []
                     | Write name content => [(name, content)]
                     end) es.

(** The lines [print_report] prints for the entries of one list, under
    the prefix [q] of their findings. *)
Definition block (q : str) (l : list (str * list str)) : list effect :=
  flat_map (fun entry : str * list str =>
              Print (nl ++ text "[FILE] " ++ fst entry) ::
              List.map (fun u => Print (q ++ u)) (snd entry)) l.

(** The prints of [print_report] before it writes, in three parts: the
    header with the statistics, the two sections, and the last rule; and
    what it does once the file is open. *)
Definition report_head (st : Stats) : list effect :=
  [Print (nl ++ rule); Print (text "IMPORT CHECK REPORT"); Print rule;
   Print (nl ++ text "Statistics:");
   Print (text "  Total files scanned: " ++ str_of_nat (total_files st));
   Print (text "  Files with unused imports: "
          ++ str_of_nat (files_with_unused st));
   Print (text "  Files with duplicate imports: "
          ++ str_of_nat (files_with_duplicates st));
   Print (text "  Total unused imports: "
          ++ str_of_nat (total_unused_imports st));
   Print (text "  Total duplicate imports: "
          ++ str_of_nat (total_duplicate_imports st))].

Definition report_section (title q ok : str) (l : list (str * list str))
  : list effect :=
  if nonempty l
  then [Print (nl ++ rule); Print title; Print rule] ++ block q l
  else [Print (nl ++ ok)].

Definition report_printed (r : Results) (st : Stats) : list effect :=
  report_head st ++
  report_section (text "UNUSED IMPORTS") (text "  [X] ")
                 (text "[OK] No unused imports found!") (unused_imports r) ++
  report_section (text "DUPLICATE IMPORTS") (text "  [DUP] ")
                 (text "[OK] No duplicate imports found!")
                 (duplicate_imports r) ++
  [Print (nl ++ rule)].

Definition report_saved (json : str) : list effect :=
  [Write (text "import-check-report.json") json;
   Print (nl ++ text "[SAVED] Detailed report saved to: "
          ++ text "import-check-report.json")].

Definition isspace_at (c : option char) : bool :=
  match c with Some x => isspace x | None => false end.

(** * Properties *)

(** ** Strings *)

Lemma str_eqb_eq (a b : str) : str_eqb a b = true <-> a = b.
Proof.
  unfold str_eqb. destruct (str_eq_dec a b); split; congruence.
Qed.

Lemma str_eqb_refl (a : str) : str_eqb a a = true.
Proof. apply str_eqb_eq. reflexivity. Qed.

Lemma str_eqb_neq (a b : str) : str_eqb a b = false <-> a <> b.
Proof.
  unfold str_eqb. destruct (str_eq_dec a b); split; congruence.
Qed.

Lemma startswith_app (p t : str) : startswith p (p ++ t) = true.
Proof.
  induction p as [|a p IH]; simpl; [reflexivity|].
  now rewrite N.eqb_refl, IH.
Qed.

Lemma startswith_inv (p s : str) :
  startswith p s = true -> s = p ++ skipn (List.length p) s.
Proof.
  revert s. induction p as [|a p IH]; intros [|b s] H; simpl in *;
    try reflexivity; try discriminate.
  apply andb_prop in H. destruct H as [Hab Hp].
  apply N.eqb_eq in Hab. subst b. f_equal. now apply IH.
Qed.

Lemma startswith_iff (p s : str) :
  startswith p s = true <-> exists t, s = p ++ t.
Proof.
  split.
  - intros H. eexists. now apply startswith_inv.
  - intros [t ->]. apply startswith_app.
Qed.

(** The first element of a list outside a class is where it is. *)
Lemma first_outside {A} (P : A -> Prop) (l1 l2 : list A) (x y : A) (r1 r2 : list A) :
  Forall P l1 -> Forall P l2 -> ~ P x -> ~ P y ->
  l1 ++ x :: r1 = l2 ++ y :: r2 -> l1 = l2 /\ x = y /\ r1 = r2.
Proof.
  revert l2. induction l1 as [|a l1 IH]; intros [|b l2] H1 H2 Hx Hy E;
    simpl in E; injection E as E1 E2.
  - now subst.
  - subst. inversion H2; subst. contradiction.
  - subst. inversion H1; subst. contradiction.
  - inversion H1; inversion H2; subst.
    destruct (IH l2) as (? & ? & ?); auto. now subst.
Qed.

(** *** Descriptions *)

Lemma describe_inj_item (a b m : str) :
  describe a m = describe b m -> a = b.
Proof.
  unfold describe. intros H. now apply app_inv_tail in H.
Qed.

Lemma last_outside {A} (P : A -> Prop) (l1 l2 : list A) (x y : A) (r1 r2 : list A) :
  Forall P r1 -> Forall P r2 -> ~ P x -> ~ P y ->
  l1 ++ x :: r1 = l2 ++ y :: r2 -> l1 = l2 /\ x = y /\ r1 = r2.
Proof.
  intros H1 H2 Hx Hy E.
  apply (f_equal (@rev A)) in E.
  rewrite !rev_app_distr in E. simpl in E. rewrite <- !app_assoc in E.
  simpl in E.
  apply (first_outside P) in E; auto using Forall_rev.
  destruct E as (E1 & E2 & E3).
  apply (f_equal (@rev A)) in E1, E3. rewrite !rev_involutive in E1, E3.
  auto.
Qed.

Lemma describe_parts (a m : str) :
  describe a m = ((a ++ text " from ") ++ quote1 :: m) ++ [quote1].
Proof.
  unfold describe. repeat rewrite <- app_assoc. reflexivity.
Qed.

Lemma describe_inj (a b m n : str) :
  quote_free m -> quote_free n ->
  describe a m = describe b n -> a = b /\ m = n.
Proof.
  unfold quote_free. intros Hm Hn H.
  rewrite !describe_parts in H. apply app_inv_tail in H.
  apply (last_outside (fun c => c <> quote1)) in H.
  - destruct H as (Hab & _ & Hmn). apply app_inv_tail in Hab. auto.
  - apply Forall_forall. intros c Hc ->. now apply Hm.
  - apply Forall_forall. intros c Hc ->. now apply Hn.
  - intros H'. now apply H'.
  - intros H'. now apply H'.
Qed.

(** ** The dictionary *)

Lemma dict_get_extend (m k : str) (items : list str) (d : dict) :
  dict_get k (dict_extend m items d) =
  if str_eqb m k then dict_get k d ++ items else dict_get k d.
Proof.
  induction d as [|[k' v] d IH]; simpl.
  - now destruct (str_eqb m k).
  - destruct (str_eqb k' m) eqn:E; simpl.
    + apply str_eqb_eq in E. subst k'.
      destruct (str_eqb m k); reflexivity.
    + destruct (str_eqb k' k) eqn:E'.
      * apply str_eqb_eq in E'. subst k'.
        replace (str_eqb m k) with false; [reflexivity|].
        symmetry. apply str_eqb_neq. apply str_eqb_neq in E. congruence.
      * apply IH.
Qed.

Lemma keys_extend (m : str) (items : list str) (d : dict) :
  keys (dict_extend m items d) =
  if existsb (fun k => str_eqb k m) (keys d) then keys d else keys d ++ [m].
Proof.
  induction d as [|[k v] d IH]; simpl; [reflexivity|].
  destruct (str_eqb k m) eqn:E; simpl; [reflexivity|].
  unfold keys in *. rewrite IH.
  now destruct (existsb _ _).
Qed.

Lemma existsb_str_eqb_In (m : str) (l : list str) :
  existsb (fun k => str_eqb k m) l = true <-> In m l.
Proof.
  rewrite existsb_exists. split.
  - intros (k & Hk & E). apply str_eqb_eq in E. now subst.
  - intros H. exists m. split; [assumption|apply str_eqb_refl].
Qed.

Lemma keys_extend_NoDup (m : str) (items : list str) (d : dict) :
  NoDup (keys d) -> NoDup (keys (dict_extend m items d)).
Proof.
  intros H. rewrite keys_extend.
  destruct (existsb _ _) eqn:E; [assumption|].
  apply NoDup_app; [assumption|repeat constructor; intros []|].
  intros k Hk [<-|[]].
  apply existsb_str_eqb_In in Hk. congruence.
Qed.

Lemma keys_extend_In (m k : str) (items : list str) (d : dict) :
  In k (keys (dict_extend m items d)) -> k = m \/ In k (keys d).
Proof.
  rewrite keys_extend. destruct (existsb _ _); [now right|].
  rewrite in_app_iff. simpl. intuition.
Qed.

(** A loop that extends the dictionary once per element. *)
Lemma dict_get_fold {A} (key : A -> str) (val : A -> list str)
  (l : list A) (d : dict) (k : str) :
  dict_get k (fold_left (fun d x => dict_extend (key x) (val x) d) l d) =
  dict_get k d ++
  concat (List.map val (filter (fun x => str_eqb (key x) k) l)).
Proof.
  revert d. induction l as [|x l IH]; intros d; simpl.
  - now rewrite app_nil_r.
  - rewrite IH, dict_get_extend.
    destruct (str_eqb (key x) k); simpl; [now rewrite app_assoc|reflexivity].
Qed.

Lemma keys_fold_NoDup {A} (key : A -> str) (val : A -> list str)
  (l : list A) (d : dict) :
  NoDup (keys d) ->
  NoDup (keys (fold_left (fun d x => dict_extend (key x) (val x) d) l d)).
Proof.
  revert d. induction l as [|x l IH]; intros d H; simpl; [assumption|].
  apply IH. now apply keys_extend_NoDup.
Qed.

Lemma keys_fold_In {A} (key : A -> str) (val : A -> list str)
  (l : list A) (d : dict) (k : str) :
  In k (keys (fold_left (fun d x => dict_extend (key x) (val x) d) l d)) ->
  In k (keys d) \/ exists x, In x l /\ key x = k.
Proof.
  revert d. induction l as [|x l IH]; intros d H; simpl in *; [now left|].
  apply IH in H. destruct H as [H|(y & Hy & E)].
  - apply keys_extend_In in H. destruct H as [->|H]; [|now left].
    right. exists x. auto.
  - right. exists y. auto.
Qed.

Lemma dict_get_In (k : str) (v : list str) (d : dict) :
  NoDup (keys d) -> In (k, v) d -> dict_get k d = v.
Proof.
  induction d as [|[k' v'] d IH]; simpl; intros H Hin; [destruct Hin|].
  destruct Hin as [E|Hin].
  - injection E as -> ->. now rewrite str_eqb_refl.
  - inversion H; subst.
    destruct (str_eqb k' k) eqn:E.
    + apply str_eqb_eq in E. subst k'. exfalso. apply H2.
      change k with (fst (k, v)). now apply in_map.
    + now apply IH.
Qed.

(** ** The detectors as maps over the bindings *)

Lemma unused_inner (cwi module : str) (items : list str) (acc : list str) :
  fold_left (fun unused item =>
               if unused_item cwi item
               then unused ++ [describe item module] else unused) items acc =
  acc ++ List.map (fun item => describe item module)
                  (filter (unused_item cwi) items).
Proof.
  revert acc. induction items as [|x items IH]; intros acc; simpl.
  - now rewrite app_nil_r.
  - rewrite IH. destruct (unused_item cwi x); simpl; [|reflexivity].
    now rewrite <- app_assoc.
Qed.

Lemma find_unused_imports_flat (content : str) (imports : dict) :
  find_unused_imports content imports =
  flat_map (fun e => List.map (fun item => describe item (fst e))
                       (filter (unused_item (content_without_imports content))
                               (snd e)))
           imports.
Proof.
  unfold find_unused_imports.
  set (cwi := content_without_imports content).
  set (body := fun (unused : list str) (entry : str * list str) => _).
  enough (G : forall acc, fold_left body imports acc = acc ++ flat_map
            (fun e => List.map (fun item => describe item (fst e))
                        (filter (unused_item cwi) (snd e))) imports)
    by apply (G []).
  subst body.
  induction imports as [|[m items] imports IH]; intros acc; simpl.
  - now rewrite app_nil_r.
  - rewrite IH, unused_inner. now rewrite <- app_assoc.
Qed.

Lemma duplicate_inner (module : str) (items : list str) (acc : list str)
  (seen : set str) :
  fst (fold_left (fun (st : list str * set str) item =>
                    let (duplicates, seen) := st in
                    ((if set_mem str_eq_dec item seen
                         && negb (str_eqb item side_effect)
                      then duplicates ++ [describe item module]
                      else duplicates),
                     set_add str_eq_dec item seen))
                 items (acc, seen)) =
  acc ++ List.map (fun item => describe item module) (repeats seen items).
Proof.
  revert acc seen. induction items as [|x items IH]; intros acc seen; simpl.
  - now rewrite app_nil_r.
  - rewrite IH.
    destruct (set_mem str_eq_dec x seen && negb (str_eqb x side_effect)); simpl;
      [now rewrite <- app_assoc|reflexivity].
Qed.

Lemma find_duplicate_imports_flat (imports : dict) :
  find_duplicate_imports imports =
  flat_map (fun e => List.map (fun item => describe item (fst e))
                       (repeats (empty_set str) (snd e)))
           imports.
Proof.
  unfold find_duplicate_imports.
  set (body := fun (duplicates : list str) (entry : str * list str) => _).
  enough (G : forall acc, fold_left body imports acc = acc ++ flat_map
            (fun e => List.map (fun item => describe item (fst e))
                        (repeats (empty_set str) (snd e))) imports)
    by apply (G []).
  subst body.
  induction imports as [|[m items] imports IH]; intros acc; simpl.
  - now rewrite app_nil_r.
  - rewrite IH, duplicate_inner. now rewrite <- app_assoc.
Qed.

(** *** Counting *)

Lemma count_app (x : str) (l1 l2 : list str) :
  count x (l1 ++ l2) = count x l1 + count x l2.
Proof. apply count_occ_app. Qed.

Lemma count_describe_same (t m : str) (l : list str) :
  count (describe t m) (List.map (fun item => describe item m) l) = count t l.
Proof.
  unfold count. induction l as [|x l IH]; simpl; [reflexivity|].
  destruct (str_eq_dec (describe x m) (describe t m)) as [E|E];
    destruct (str_eq_dec x t) as [E'|E']; try congruence;
    try (apply describe_inj_item in E; contradiction);
    try (subst; contradiction).
Qed.

Lemma count_describe_other (t m n : str) (l : list str) :
  quote_free m -> quote_free n -> m <> n ->
  count (describe t m) (List.map (fun item => describe item n) l) = 0.
Proof.
  intros Hm Hn Hne. unfold count. apply count_occ_not_In.
  intros H. apply in_map_iff in H. destruct H as (x & E & _).
  apply describe_inj in E; auto. destruct E. congruence.
Qed.

(** In a well-formed dictionary the findings of a module are told from
    those of every other module. *)
Lemma count_flat_map (g : list str -> list str) (imports : dict)
  (m : str) (items : list str) (t : str) :
  well_formed imports -> In (m, items) imports ->
  count (describe t m)
        (flat_map (fun e => List.map (fun item => describe item (fst e))
                              (g (snd e))) imports) =
  count t (g items).
Proof.
  intros [Hnd Hq] Hin.
  assert (Hm : quote_free m).
  { rewrite Forall_forall in Hq. apply Hq.
    change m with (fst (m, items)). now apply in_map. }
  induction imports as [|[n its] imports IH]; [destruct Hin|].
  simpl in *. inversion Hnd; subst. inversion Hq; subst.
  rewrite count_app. destruct Hin as [E|Hin].
  - injection E as -> ->. rewrite count_describe_same.
    assert (Z : forall l : dict, ~ In m (keys l) -> Forall quote_free (keys l) ->
              count (describe t m)
                (flat_map (fun e => List.map (fun item => describe item (fst e))
                                      (g (snd e))) l) = 0).
    { induction l as [|[n' its'] l IHl]; intros Hni Hql; [reflexivity|].
      simpl in *. inversion Hql; subst. rewrite count_app.
      rewrite count_describe_other; auto. }
    rewrite Z; auto.
  - rewrite count_describe_other; auto.
    intros ->. apply H1. change n with (fst (n, items)). now apply in_map.
Qed.

Lemma set_mem_add (x y : str) (seen : set str) :
  set_mem str_eq_dec x (set_add str_eq_dec y seen) =
  str_eqb x y || set_mem str_eq_dec x seen.
Proof.
  destruct (str_eqb x y) eqn:E; simpl.
  - apply str_eqb_eq in E. subst. apply set_mem_correct2.
    apply set_add_intro2. reflexivity.
  - apply str_eqb_neq in E.
    destruct (set_mem str_eq_dec x seen) eqn:M.
    + apply set_mem_correct2. apply set_add_intro1.
      now apply set_mem_correct1 in M.
    + apply set_mem_complete2. intros H.
      apply set_add_elim2 in H; [|assumption].
      now apply set_mem_complete1 in M.
Qed.

(** The counting law of one module. *)
Lemma count_repeats (t : str) (seen : set str) (items : list str) :
  t <> side_effect ->
  count t (repeats seen items) =
  if set_mem str_eq_dec t seen then count t items else count t items - 1.
Proof.
  intros Ht. revert seen. induction items as [|x items IH]; intros seen; simpl.
  - now destruct (set_mem _ _ _).
  - rewrite count_app, IH, set_mem_add. unfold count at 2 4. simpl.
    destruct (str_eq_dec x t) as [->|Hx].
    + rewrite str_eqb_refl. simpl.
      replace (str_eqb t side_effect) with false
        by (symmetry; now apply str_eqb_neq).
      destruct (set_mem str_eq_dec t seen); simpl.
      * unfold count. simpl. destruct (str_eq_dec t t); [lia|contradiction].
      * unfold count. simpl. lia.
    + replace (str_eqb t x) with false
        by (symmetry; apply str_eqb_neq; congruence).
      simpl.
      assert (Z : count t (if set_mem str_eq_dec x seen
                              && negb (str_eqb x side_effect)
                           then [x] else []) = 0).
      { destruct (_ && _); unfold count; simpl; [|reflexivity].
        destruct (str_eq_dec x t); [contradiction|reflexivity]. }
      rewrite Z. reflexivity.
Qed.

Lemma repeats_no_sentinel (seen : set str) (items : list str) :
  ~ In side_effect (repeats seen items).
Proof.
  revert seen. induction items as [|x items IH]; intros seen; simpl; [tauto|].
  rewrite in_app_iff. intros [H|H]; [|now apply IH in H].
  destruct (str_eqb x side_effect) eqn:E.
  - rewrite andb_false_r in H. destruct H.
  - destruct (set_mem _ _ _); simpl in H; [|destruct H].
    destruct H as [->|[]]. now rewrite str_eqb_refl in E.
Qed.

(** ** The scan *)

Lemma unused_of_readable (path content : str) :
  unused_of (path, Some content) =
  find_unused_imports content (extract_imports content).
Proof.
  unfold unused_of, check_file, bind, when, ret, get, put. simpl.
  destruct (nonempty (find_unused_imports _ _));
    destruct (nonempty (find_duplicate_imports _)); reflexivity.
Qed.

Lemma duplicates_of_readable (path content : str) :
  duplicates_of (path, Some content) =
  find_duplicate_imports (extract_imports content).
Proof.
  unfold duplicates_of, check_file, bind, when, ret, get, put. simpl.
  destruct (nonempty (find_unused_imports _ _));
    destruct (nonempty (find_duplicate_imports _)); reflexivity.
Qed.

Lemma unused_of_unreadable (path : str) : unused_of (path, None) = [].
Proof. reflexivity. Qed.

(** One call of [check_file]: what it returns does not depend on the
    results so far, and it appends one entry per non-empty list. *)
Lemma check_file_spec (f : file) (r : Results) :
  let (ud, r') := check_file f r in
  ud = (unused_of f, duplicates_of f) /\
  unused_imports r' =
    unused_imports r ++
    (if nonempty (unused_of f) then [(fst f, unused_of f)] else []) /\
  duplicate_imports r' =
    duplicate_imports r ++
    (if nonempty (duplicates_of f) then [(fst f, duplicates_of f)] else []) /\
  stats r' = stats r.
Proof.
  destruct f as [path [content|]].
  - rewrite unused_of_readable, duplicates_of_readable.
    unfold check_file, bind, when, ret, get, put. simpl.
    destruct (nonempty (find_unused_imports _ _));
      destruct (nonempty (find_duplicate_imports _)); simpl;
      rewrite ?app_nil_r; auto.
  - simpl. rewrite !app_nil_r. auto.
Qed.

Lemma scan_loop_spec (ts_files : list file) (tu td : nat) (r : Results) :
  let (totals, r') := scan_loop ts_files tu td r in
  totals = (tu + total unused_of ts_files, td + total duplicates_of ts_files) /\
  unused_imports r' = unused_imports r ++ entries unused_of ts_files /\
  duplicate_imports r' = duplicate_imports r ++ entries duplicates_of ts_files /\
  stats r' = stats r.
Proof.
  revert tu td r. induction ts_files as [|f fs IH]; intros tu td r.
  - simpl. unfold ret, total, entries. simpl. rewrite !app_nil_r.
    repeat split; f_equal; lia.
  - simpl. unfold bind.
    pose proof (check_file_spec f r) as Hf.
    destruct (check_file f r) as [ud r1].
    destruct Hf as (-> & Hu & Hd & Hs). simpl.
    specialize (IH (tu + List.length (unused_of f))
                   (td + List.length (duplicates_of f)) r1).
    destruct (scan_loop fs _ _ r1) as [totals r2].
    destruct IH as (-> & Hu2 & Hd2 & Hs2).
    rewrite Hu2, Hd2, Hs2, Hu, Hd, Hs. unfold total, entries. simpl.
    repeat split.
    + f_equal; lia.
    + rewrite <- app_assoc. f_equal.
      now destruct (nonempty (unused_of f)).
    + rewrite <- app_assoc. f_equal.
      now destruct (nonempty (duplicates_of f)).
Qed.

Lemma entries_nonempty (g : file -> list str) (ts_files : list file) :
  filter (fun e : str * list str => nonempty (snd e)) (entries g ts_files) =
  entries g ts_files.
Proof.
  unfold entries. induction ts_files as [|f fs IH]; simpl; [reflexivity|].
  destruct (nonempty (g f)) eqn:E; simpl; [|assumption].
  rewrite E. now f_equal.
Qed.

Lemma scan_directory_spec (ts_files : list file) :
  snd (scan_directory ts_files init) =
  {| unused_imports := entries unused_of ts_files;
     duplicate_imports := entries duplicates_of ts_files;
     stats := Some {|
       total_files := List.length ts_files;
       files_with_unused :=
         List.length (filter (fun f => nonempty (unused_of f)) ts_files);
       files_with_duplicates :=
         List.length (filter (fun f => nonempty (duplicates_of f)) ts_files);
       total_unused_imports := total unused_of ts_files;
       total_duplicate_imports := total duplicates_of ts_files |} |}.
Proof.
  unfold scan_directory, bind, get, put.
  pose proof (scan_loop_spec ts_files 0 0 init) as H.
  destruct (scan_loop ts_files 0 0 init) as [totals r].
  destruct H as (-> & Hu & Hd & Hs). simpl in *.
  rewrite Hu, Hd, entries_nonempty.
  assert (L : forall g, List.length (entries g ts_files) =
                        List.length (filter (fun f => nonempty (g f)) ts_files))
    by (intros g; unfold entries; apply length_map).
  rewrite !L. reflexivity.
Qed.

Lemma total_zero (g : file -> list str) (ts_files : list file) :
  total g ts_files = 0 <-> forall f, In f ts_files -> g f = [].
Proof.
  unfold total. induction ts_files as [|f fs IH]; simpl.
  - split; [intros _ f []|reflexivity].
  - split.
    + intros H f' [E|Hin].
      * subst f'. destruct (g f); [reflexivity|simpl in H; lia].
      * apply IH; [lia|assumption].
    + intros H. rewrite (H f) by now left. simpl. apply IH.
      intros f' Hin. apply H. now right.
Qed.

(** C9.  After the scan of a fresh checker the statistics are the sums
    and the counts of the lists [check_file] returned: the total of unused
    imports is the sum of the lengths of the unused lists of the files
    processed, the total of duplicates the sum of the lengths of their
    duplicate lists, and the two file counters count the files whose list
    is not empty. *)
Theorem scan_directory_stats (ts_files : list file) :
  exists st,
    stats (snd (scan_directory ts_files init)) = Some st /\
    total_files st = List.length ts_files /\
    total_unused_imports st =
      list_sum (List.map (fun f => List.length (unused_of f)) ts_files) /\
    total_duplicate_imports st =
      list_sum (List.map (fun f => List.length (duplicates_of f)) ts_files) /\
    files_with_unused st =
      List.length (filter (fun f => nonempty (unused_of f)) ts_files) /\
    files_with_duplicates st =
      List.length (filter (fun f => nonempty (duplicates_of f)) ts_files).
Proof.
  rewrite scan_directory_spec. simpl. eexists. split; [reflexivity|].
  simpl. repeat split.
Qed.

Lemma nonempty_entries (g : file -> list str) (ts_files : list file) :
  nonempty (entries g ts_files) = (0 <? total g ts_files).
Proof.
  unfold entries, total. induction ts_files as [|f fs IH]; simpl;
    [reflexivity|].
  destruct (g f) eqn:E; simpl; [exact IH|reflexivity].
Qed.

(** ** The run *)

Lemma print_report_returned (json_dump : Results -> str) (writable : str -> bool)
  (r : Results) (st : Stats) :
  stats r = Some st ->
  snd (print_report json_dump writable r) = writable (text "import-check-report.json").
Proof.
  intros H. unfold print_report. rewrite H.
  now destruct (writable (text "import-check-report.json")).
Qed.

Lemma generate_fix_script_returned (writable : str -> bool) (r : Results) :
  snd (generate_fix_script writable r) =
  negb (nonempty (unused_imports r)) || writable (text "fix-unused-imports.sh").
Proof.
  unfold generate_fix_script.
  destruct (nonempty (unused_imports r)); [|reflexivity].
  now destruct (writable (text "fix-unused-imports.sh")).
Qed.

(** The exit status of a run: 0 when the report is written and no import
    is unused, 1 in every other case. *)
Lemma main_status (json_dump : Results -> str) (writable : str -> bool)
  (ts_files : list file) :
  snd (main json_dump writable ts_files) =
  if writable (text "import-check-report.json")
     && (total unused_of ts_files =? 0)
  then 0 else 1.
Proof.
  unfold main.
  pose proof (scan_directory_spec ts_files) as R.
  set (r := snd (scan_directory ts_files init)) in *.
  assert (Hst : stats r = Some {|
             total_files := List.length ts_files;
             files_with_unused :=
               List.length (filter (fun f => nonempty (unused_of f)) ts_files);
             files_with_duplicates :=
               List.length (filter (fun f => nonempty (duplicates_of f))
                                   ts_files);
             total_unused_imports := total unused_of ts_files;
             total_duplicate_imports := total duplicates_of ts_files |})
    by now rewrite R.
  assert (Hu : nonempty (unused_imports r) = (0 <? total unused_of ts_files))
    by (rewrite R; apply nonempty_entries).
  pose proof (print_report_returned json_dump writable r _ Hst) as P.
  pose proof (generate_fix_script_returned writable r) as G.
  destruct (print_report json_dump writable r) as [report returned].
  destruct (generate_fix_script writable r) as [script returned'].
  cbn [snd] in P, G. subst returned returned'. rewrite Hu.
  unfold exit_status. rewrite Hst. cbn [total_unused_imports].
  destruct (writable (text "import-check-report.json")); [|reflexivity].
  destruct (total unused_of ts_files) as [|n]; [reflexivity|].
  change (0 <? S n) with true. change (S n =? 0) with false.
  cbn [negb orb andb snd].
  now destruct (writable (text "fix-unused-imports.sh")).
Qed.

(** C8, with the writes of the run.  The exit status is 0 exactly when
    the total of unused imports in the statistics of the run is zero and
    the report could be written, and 1 in every other case: the failure
    to write the report ends the run with status 1 whatever the total.
    So a run that writes its report and in which no file has an unused
    import exits with 0, whatever duplicates it found. *)
Theorem main_exit_status (json_dump : Results -> str) (writable : str -> bool)
  (ts_files : list file) :
  exists st,
    stats (snd (scan_directory ts_files init)) = Some st /\
    (snd (main json_dump writable ts_files) = 0 <->
     total_unused_imports st = 0 /\
     writable (text "import-check-report.json") = true) /\
    (snd (main json_dump writable ts_files) = 0 \/ snd (main json_dump writable ts_files) = 1) /\
    (writable (text "import-check-report.json") = true ->
     (forall f, In f ts_files -> unused_of f = []) ->
     snd (main json_dump writable ts_files) = 0).
Proof.
  rewrite main_status, scan_directory_spec. cbn [stats].
  eexists. split; [reflexivity|]. cbn [total_unused_imports].
  destruct (writable (text "import-check-report.json"));
    destruct (total unused_of ts_files) as [|n] eqn:E; cbn.
  - repeat split; auto.
  - repeat split; auto; try discriminate.
    + intros [H _]. discriminate H.
    + intros _ H. apply total_zero in H. lia.
  - repeat split; auto; try discriminate.
    intros [_ H]. discriminate H.
  - repeat split; auto; try discriminate.
    intros [H _]. discriminate H.
Qed.

(** ** The matcher *)

Lemma advance_cons (prev : option char) (x : char) (u : str) :
  advance prev (x :: u) = advance (Some x) u.
Proof. reflexivity. Qed.


Lemma emit_inv (grp : bool) (k : cont) (acc : str) (prev : option char)
  (s : str) (gs : list str) (rest : str) :
  emit grp k acc prev s = Some (gs, rest) ->
  exists gs', k prev s = Some (gs', rest) /\
              gs = if grp then rev acc :: gs' else gs'.
Proof.
  unfold emit. destruct (k prev s) as [[gs' rest']|]; [|discriminate].
  intros H. injection H as <- <-. eauto.
Qed.

Lemma greedy_sound (P : char -> bool) (fin : str -> cont) (s : str) :
  forall acc prev r,
    greedy P fin acc prev s = Some r ->
    exists u s', s = u ++ s' /\ Forall (fun c => P c = true) u /\
                 fin (rev u ++ acc) (advance prev u) s' = Some r.
Proof.
  induction s as [|x s IH]; intros acc prev r H; simpl in H.
  - exists [], []. auto.
  - destruct (P x) eqn:Px.
    + destruct (greedy P fin (x :: acc) (Some x) s) as [r'|] eqn:G.
      * injection H as <-. apply IH in G.
        destruct G as (u & s' & -> & Hu & Hf).
        exists (x :: u), s'. simpl. rewrite <- app_assoc. auto.
      * exists [], (x :: s). auto.
    + exists [], (x :: s). auto.
Qed.

Lemma lazy_sound (P : char -> bool) (fin : str -> cont) (s : str) :
  forall acc prev r,
    lazy P fin acc prev s = Some r ->
    exists u s', s = u ++ s' /\ Forall (fun c => P c = true) u /\
                 fin (rev u ++ acc) (advance prev u) s' = Some r.
Proof.
  induction s as [|x s IH]; intros acc prev r H; simpl in H.
  - destruct (fin acc prev []) eqn:F; [|discriminate].
    injection H as <-. exists [], []. auto.
  - destruct (fin acc prev (x :: s)) eqn:F.
    + injection H as <-. exists [], (x :: s). auto.
    + destruct (P x) eqn:Px; [|discriminate].
      apply IH in H. destruct H as (u & s' & -> & Hu & Hf).
      exists (x :: u), s'. simpl. rewrite <- app_assoc. auto.
Qed.

Lemma step_sound (a : atom) (k : cont) (prev : option char) (s : str)
  (gs : list str) (rest : str) :
  step a k prev s = Some (gs, rest) ->
  exists u s' gs',
    s = u ++ s' /\ consumes a prev s u /\
    k (advance prev u) s' = Some (gs', rest) /\ gs = captures a u gs'.
Proof.
  destruct a as [q c grp|]; simpl.
  - assert (E : forall u prev' s', Forall (fun x => cls_match c x = true) u ->
              quant_ok q (List.length u) ->
              emit grp k (rev u) prev' s' = Some (gs, rest) ->
              exists gs', k prev' s' = Some (gs', rest) /\
                          gs = captures (Chr q c grp) u gs').
    { intros u prev' s' _ _ H. apply emit_inv in H.
      destruct H as (gs' & Hk & ->). exists gs'. split; [assumption|].
      simpl. rewrite rev_involutive. now destruct grp. }
    destruct q.
    + (* One *)
      destruct s as [|x s]; [discriminate|].
      destruct (cls_match c x) eqn:Px; [|discriminate].
      intros H. apply (E [x]) in H; simpl; auto.
      destruct H as (gs' & Hk & ->). exists [x], s, gs'. simpl. auto 6.
    + (* Opt *)
      intros H.
      assert (H0 : emit grp k [] prev s = Some (gs, rest) ->
                   exists u s' gs', s = u ++ s' /\
                     (Forall (fun x => cls_match c x = true) u /\
                      List.length u <= 1) /\
                     k (advance prev u) s' = Some (gs', rest) /\
                     gs = captures (Chr Opt c grp) u gs').
      { intros H0. apply (E []) in H0; simpl; auto.
        destruct H0 as (gs' & Hk & ->). exists [], s, gs'. simpl. auto 6. }
      destruct s as [|x s]; [now apply H0|].
      destruct (cls_match c x) eqn:Px; [|now apply H0].
      destruct (emit grp k [x] (Some x) s) as [r|] eqn:F; [|now apply H0].
      injection H as ->. apply (E [x]) in F; simpl; auto.
      destruct F as (gs' & Hk & ->). exists [x], s, gs'. simpl. auto 6.
    + (* Star *)
      intros H. apply greedy_sound in H.
      destruct H as (u & s' & -> & Hu & Hf). rewrite app_nil_r in Hf.
      apply (E u) in Hf; simpl; auto.
      destruct Hf as (gs' & Hk & ->). exists u, s', gs'. simpl. auto.
    + (* Plus *)
      destruct s as [|x s]; [discriminate|].
      destruct (cls_match c x) eqn:Px; [|discriminate].
      intros H. apply greedy_sound in H.
      destruct H as (u & s' & -> & Hu & Hf).
      change (rev u ++ [x]) with (rev (x :: u)) in Hf.
      apply (E (x :: u)) in Hf; simpl; auto with arith.
      destruct Hf as (gs' & Hk & ->). exists (x :: u), s', gs'.
      simpl. repeat split; auto with arith.
    + (* LazyStar *)
      intros H. apply lazy_sound in H.
      destruct H as (u & s' & -> & Hu & Hf). rewrite app_nil_r in Hf.
      apply (E u) in Hf; simpl; auto.
      destruct Hf as (gs' & Hk & ->). exists u, s', gs'. simpl. auto.
  - destruct (at_boundary prev s) eqn:B; [|discriminate].
    intros H. exists [], s, gs. simpl. auto.
Qed.

(** A match of [run] is a text of the shape of the pattern. *)
Lemma run_sound (p : pattern) :
  forall prev s gs rest,
    run p prev s = Some (gs, rest) -> matches p prev s gs rest.
Proof.
  induction p as [|a p IH]; intros prev s gs rest H; simpl in *.
  - injection H as <- <-. auto.
  - apply step_sound in H. destruct H as (u & s' & gs' & -> & Hc & Hk & ->).
    exists u, s', gs'. auto.
Qed.



Lemma run_lit (w : str) (p : pattern) :
  forall prev s,
    run (lit_str w ++ p) prev s =
    if startswith w s
    then run p (advance prev w) (skipn (List.length w) s)
    else None.
Proof.
  induction w as [|c w IH]; intros prev s; simpl.
  - reflexivity.
  - destruct s as [|x s]; [reflexivity|].
    destruct (N.eqb c x) eqn:E; simpl; [|reflexivity].
    apply N.eqb_eq in E. subst x.
    unfold emit. fold (run (lit_str w ++ p)). rewrite IH.
    destruct (startswith w s); [|reflexivity].
    now destruct (run p _ _) as [[gs rest]|].
Qed.

(** ** The matches of [finditer] *)

Lemma finditer_from_In (p : pattern) (s : str) :
  forall pos skip prev i gs,
    In (i, gs) (finditer_from p pos skip prev s) ->
    pos <= i /\
    exists rest,
      run p (advance prev (firstn (i - pos) s)) (skipn (i - pos) s) =
      Some (gs, rest).
Proof.
  induction s as [|x s IH]; intros pos skip prev i gs H.
  - destruct skip as [|k]; simpl in H; [|destruct H].
    destruct (run p prev []) as [[gs' rest]|] eqn:R; [|destruct H].
    destruct H as [E|[]]. injection E as <- <-.
    split; [lia|]. exists rest. now rewrite Nat.sub_diag.
  - assert (T : forall k, In (i, gs) (finditer_from p (S pos) k (Some x) s) ->
              pos <= i /\
              exists rest,
                run p (advance prev (firstn (i - pos) (x :: s)))
                    (skipn (i - pos) (x :: s)) = Some (gs, rest)).
    { intros k Hk. apply IH in Hk. destruct Hk as (Hle & rest & Hr).
      split; [lia|]. exists rest.
      replace (i - pos) with (S (i - S pos)) by lia. exact Hr. }
    destruct skip as [|k]; simpl in H; [|now apply T in H].
    destruct (run p prev (x :: s)) as [[gs' rest]|] eqn:R;
      [|now apply T in H].
    destruct H as [E|H]; [|now apply T in H].
    injection E as <- <-. split; [lia|]. exists rest.
    now rewrite Nat.sub_diag.
Qed.

Lemma finditer_In (p : pattern) (s : str) (i : nat) (gs : list str) :
  In (i, gs) (finditer p s) ->
  exists rest,
    run p (advance None (firstn i s)) (skipn i s) = Some (gs, rest).
Proof.
  intros H. apply finditer_from_In in H. destruct H as (_ & rest & H).
  rewrite Nat.sub_0_r in H. eauto.
Qed.

Lemma finditer_from_sorted (p : pattern) (s : str) :
  forall pos skip prev,
    StronglySorted lt (List.map fst (finditer_from p pos skip prev s)).
Proof.
  induction s as [|x s IH]; intros pos skip prev.
  - destruct skip; simpl; [|constructor].
    destruct (run p prev []) as [[gs rest]|]; simpl; repeat constructor.
  - destruct skip as [|k]; simpl; [|apply IH].
    destruct (run p prev (x :: s)) as [[gs rest]|]; simpl; [|apply IH].
    constructor; [apply IH|].
    apply Forall_forall. intros i Hi. apply in_map_iff in Hi.
    destruct Hi as ([i' gs'] & <- & Hi). apply finditer_from_In in Hi.
    simpl. lia.
Qed.

(** The groups of a match are made of characters of their classes. *)
Lemma matches_groups (p : pattern) :
  forall prev s gs rest,
    matches p prev s gs rest ->
    Forall2 (fun k g => Forall (fun c => cls_match k c = true) g)
            (group_classes p) gs.
Proof.
  induction p as [|a p IH]; intros prev s gs rest H; simpl in H.
  - destruct H as [-> _]. constructor.
  - destruct H as (u & s' & gs' & -> & Hc & H & ->).
    apply IH in H. destruct a as [q k [|]|]; simpl; auto.
    constructor; [|assumption]. now destruct Hc.
Qed.

Lemma none_of_quotes_free (g : str) :
  Forall (fun c => cls_match (NoneOf quotes) c = true) g -> quote_free g.
Proof.
  intros H Hin. rewrite Forall_forall in H. apply H in Hin.
  discriminate Hin.
Qed.

(** The module specifier of a match of any of the four patterns. *)
Lemma module_quote_free (p : pattern) (n : nat) (content : str)
  (m : nat * list str) :
  nth_error (group_classes p) (n - 1) = Some (NoneOf quotes) ->
  In m (finditer p content) -> quote_free (group n (snd m)).
Proof.
  intros Hn Hin. destruct m as [i gs].
  apply finditer_In in Hin. destruct Hin as (rest & Hr).
  apply run_sound, matches_groups in Hr. simpl. unfold group.
  revert Hn Hr. generalize (group_classes p) as ks. generalize (n - 1) as j.
  intros j ks. revert j gs.
  induction ks as [|k ks IH]; intros [|j] gs Hn Hr; simpl in Hn;
    try discriminate; inversion Hr; subst; simpl.
  - injection Hn as ->. now apply none_of_quotes_free.
  - eapply IH; eauto.
Qed.

(** ** The extractor *)

Lemma extract_imports_well_formed (content : str) :
  well_formed (extract_imports content).
Proof.
  unfold extract_imports, dict_append. split.
  - repeat apply keys_fold_NoDup with
      (key := fun m : nat * list str => group _ (snd m)).
    constructor.
  - apply Forall_forall. intros k Hk.
    repeat (apply keys_fold_In with
              (key := fun m : nat * list str => group _ (snd m)) in Hk;
            destruct Hk as [Hk|(m & Hm & <-)];
            [|eapply module_quote_free; [|eassumption]; reflexivity]).
    destruct Hk.
Qed.

Lemma extract_imports_get (content module : str) :
  dict_get module (extract_imports content) =
  pass named_pattern 2 (fun gs => named_items (group 1 gs)) content module ++
  pass namespace_pattern 2 (fun gs => [star_as ++ group 1 gs]) content module ++
  pass default_pattern 2 (fun gs => [group 1 gs]) content module ++
  pass side_effect_pattern 1 (fun _ => [side_effect]) content module.
Proof.
  unfold extract_imports, dict_append, pass.
  rewrite (dict_get_fold (fun m : nat * list str => group 1 (snd m))
                         (fun _ => [side_effect])).
  rewrite (dict_get_fold (fun m : nat * list str => group 2 (snd m))
                         (fun m => [group 1 (snd m)])).
  rewrite (dict_get_fold (fun m : nat * list str => group 2 (snd m))
                         (fun m => [star_as ++ group 1 (snd m)])).
  rewrite (dict_get_fold (fun m : nat * list str => group 2 (snd m))
                         (fun m => named_items (group 1 (snd m)))).
  simpl. now rewrite <- !app_assoc.
Qed.

(** C1, as the code has it.  The bindings of a module are those of its
    named declarations, then those of its namespace declarations, then
    those of its default declarations, then one sentinel per bare import
    of it; within each of the four shapes the declarations are taken in
    the order of the file text, each match of [finditer] starting after
    the one before. *)
Theorem extract_imports_order (content module : str) :
  dict_get module (extract_imports content) =
    pass named_pattern 2 (fun gs => named_items (group 1 gs)) content module ++
    pass namespace_pattern 2 (fun gs => [star_as ++ group 1 gs]) content module ++
    pass default_pattern 2 (fun gs => [group 1 gs]) content module ++
    pass side_effect_pattern 1 (fun _ => [side_effect]) content module
  /\ forall p, StronglySorted lt (List.map fst (finditer p content)).
Proof.
  split; [apply extract_imports_get|].
  intros p. apply finditer_from_sorted.
Qed.

(** ** The shapes do not overlap at their start *)










(** *** Inside a declaration

    A declaration of the named or of the namespace shape ends with a
    quote, so the keyword of another match cannot run over its end: the
    default pattern has no match from inside the declaration unless the
    keyword occurs there again. *)







(** ** Whole-word search *)

Lemma advance_nonempty (prev : option char) (u : str) :
  u <> [] -> advance prev u = advance None u.
Proof.
  destruct u as [|x u]; [congruence|reflexivity].
Qed.

Lemma run_word_pattern (name : str) (prev : option char) (s : str) :
  run (word_pattern name) prev s =
  if at_boundary prev s && startswith name s
     && at_boundary (advance prev name) (skipn (List.length name) s)
  then Some ([], skipn (List.length name) s)
  else None.
Proof.
  unfold word_pattern.
  change (run (Boundary :: lit_str name ++ [Boundary]) prev s)
    with (if at_boundary prev s
          then run (lit_str name ++ [Boundary]) prev s else None).
  destruct (at_boundary prev s); [|reflexivity]. simpl.
  rewrite run_lit. destruct (startswith name s); [|reflexivity]. simpl.
  now destruct (at_boundary _ _).
Qed.

Lemma search_from_some (p : pattern) (s : str) :
  forall prev,
    search_from p prev s <> None <->
    exists pre post, s = pre ++ post /\ run p (advance prev pre) post <> None.
Proof.
  induction s as [|x s IH]; intros prev; simpl.
  - destruct (run p prev []) eqn:R.
    + split; [|congruence]. intros _. exists [], []. simpl. split; congruence.
    + split; [congruence|]. intros (pre & post & E & H).
      symmetry in E. apply app_eq_nil in E. destruct E as [-> ->].
      simpl in H. congruence.
  - destruct (run p prev (x :: s)) eqn:R.
    + split; [|congruence]. intros _. exists [], (x :: s). simpl.
      split; congruence.
    + rewrite IH. split.
      * intros (pre & post & -> & H). exists (x :: pre), post. auto.
      * intros (pre & post & E & H). destruct pre as [|y pre].
        -- simpl in E, H. subst post. congruence.
        -- injection E as <- ->. exists pre, post. auto.
Qed.

Lemma at_boundary_word_head (prev : option char) (name post : str) :
  isword_at (hd_error name) = true ->
  at_boundary prev (name ++ post) = negb (isword_at prev).
Proof.
  unfold at_boundary. destruct name as [|x name]; simpl; [discriminate|].
  intros ->. now destruct (isword_at prev).
Qed.

Lemma at_boundary_word_last (prev : option char) (name post : str) :
  isword_at (advance None name) = true ->
  at_boundary (advance prev name) post = negb (isword_at (hd_error post)).
Proof.
  unfold at_boundary. intros H.
  rewrite advance_nonempty by (intros ->; discriminate H).
  rewrite H. reflexivity.
Qed.

(** The search of the code finds the whole words. *)
Lemma search_word_pattern (name s : str) :
  starts_and_ends_in_word name ->
  search (word_pattern name) s = true <-> whole_word_in name s.
Proof.
  intros [Hh Hl]. unfold search, whole_word_in.
  assert (S : search_from (word_pattern name) None s <> None <->
              exists pre post,
                s = pre ++ name ++ post /\
                isword_at (advance None pre) = false /\
                isword_at (hd_error post) = false).
  { rewrite search_from_some. split.
    - intros (pre & s0 & -> & H). rewrite run_word_pattern in H.
      destruct (startswith name s0) eqn:P;
        [|rewrite andb_false_r in H; simpl in H; congruence].
      apply startswith_inv in P.
      remember (skipn (List.length name) s0) as post eqn:Hpost in *.
      clear Hpost. subst s0.
      rewrite at_boundary_word_head, at_boundary_word_last in H by assumption.
      exists pre, post. split; [reflexivity|].
      destruct (isword_at (advance None pre));
        destruct (isword_at (hd_error post)); simpl in H; auto; congruence.
    - intros (pre & post & -> & H1 & H2). exists pre, (name ++ post).
      split; [reflexivity|]. rewrite run_word_pattern.
      rewrite at_boundary_word_head, startswith_app by assumption.
      rewrite skipn_app, Nat.sub_diag, skipn_all. simpl.
      rewrite at_boundary_word_last by assumption.
      rewrite H1, H2. simpl. congruence. }
  rewrite <- S.
  destruct (search_from (word_pattern name) None s); split; congruence.
Qed.

Lemma not_word_star : isword (chr "*") = false.
Proof. reflexivity. Qed.

Lemma word_not_namespace (name : str) :
  isword_at (hd_error name) = true -> startswith star_as name = false.
Proof.
  destruct name as [|x name]; [discriminate|].
  intros H. simpl in H.
  change (startswith star_as (x :: name))
    with ((chr "*" =? x)%N && startswith (tl star_as) name).
  destruct (N.eqb_spec (chr "*") x) as [<-|_]; [|reflexivity].
  rewrite not_word_star in H. discriminate.
Qed.

Lemma split_star_as_word (name cur : str) :
  Forall (fun c => isword c = true) name ->
  split_from star_as 0 cur name = [rev cur ++ name].
Proof.
  revert cur. induction name as [|x name IH]; intros cur H.
  - simpl. now rewrite app_nil_r.
  - inversion H as [|? ? Hx Hn]; subst.
    change (split_from star_as 0 cur (x :: name))
      with (if startswith star_as (x :: name)
            then rev cur :: split_from star_as (List.length star_as - 1) [] name
            else split_from star_as 0 (x :: cur) name).
    rewrite word_not_namespace by exact Hx.
    rewrite IH by assumption. simpl. now rewrite <- app_assoc.
Qed.

Lemma unused_item_word (cwi name : str) :
  starts_and_ends_in_word name -> name <> side_effect ->
  unused_item cwi name = negb (search (word_pattern name) cwi).
Proof.
  intros [Hh _] Hs. unfold unused_item.
  replace (str_eqb name side_effect) with false
    by (symmetry; now apply str_eqb_neq).
  now rewrite word_not_namespace.
Qed.

Lemma unused_item_namespace (cwi name : str) :
  Forall (fun c => isword c = true) name ->
  unused_item cwi (star_as ++ name) = negb (search (word_pattern name) cwi).
Proof.
  intros H. unfold unused_item.
  replace (str_eqb (star_as ++ name) side_effect) with false
    by (symmetry; apply str_eqb_neq; discriminate).
  rewrite startswith_app. unfold split.
  change (split_from star_as 0 [] (star_as ++ name))
    with ([] :: split_from star_as 0 [] name).
  rewrite split_star_as_word by assumption. reflexivity.
Qed.


(** ** Duplicates *)

Lemma repeats_fresh (seen : set str) (items : list str) :
  NoDup items -> (forall x, In x items -> ~ set_In x seen) ->
  repeats seen items = [].
Proof.
  revert seen. induction items as [|x items IH]; intros seen Hnd Hs;
    [reflexivity|].
  inversion Hnd; subst. simpl.
  replace (set_mem str_eq_dec x seen) with false.
  - simpl. apply IH; [assumption|].
    intros y Hy Hin. apply set_add_elim in Hin. destruct Hin as [->|Hin].
    + contradiction.
    + apply (Hs y); [now right|assumption].
  - symmetry. apply set_mem_complete2. apply Hs. now left.
Qed.

(** C3.  In a well-formed dictionary, a text other than the sentinel that
    occurs [k] times, [k] at least 1, in the list of a module is reported
    [k - 1] times for that module: once per occurrence after the first,
    and not at all when it occurs once.  Where no module lists a text
    twice nothing is reported, whatever texts the modules share. *)
Theorem find_duplicate_imports_count (imports : dict) (module : str)
  (items : list str) (t : str) (k : nat) :
  well_formed imports -> In (module, items) imports ->
  t <> side_effect -> count t items = k -> 1 <= k ->
  count (describe t module) (find_duplicate_imports imports) = k - 1 /\
  ((forall e, In e imports -> NoDup (snd e)) ->
   find_duplicate_imports imports = []).
Proof.
  intros Hwf Hin Ht Hk Hk1. rewrite find_duplicate_imports_flat. split.
  - rewrite (count_flat_map (repeats (empty_set str)) imports module items)
      by assumption.
    rewrite count_repeats by assumption. simpl. congruence.
  - intros Hnd. clear Hin Hwf. induction imports as [|e imports IH];
      [reflexivity|].
    simpl. rewrite repeats_fresh.
    + simpl. apply IH. intros e' He'. apply Hnd. now right.
    + apply Hnd. now left.
    + intros x _ [].
Qed.

(** ** The sentinel *)

Lemma unused_item_sentinel (cwi : str) : unused_item cwi side_effect = false.
Proof. reflexivity. Qed.

Lemma reported_from (g : list str -> list str) (imports : dict) (d : str) :
  In d (flat_map (fun e => List.map (fun item => describe item (fst e))
                             (g (snd e))) imports) ->
  exists m items item,
    In (m, items) imports /\ In item (g items) /\ d = describe item m.
Proof.
  intros H. apply in_flat_map in H. destruct H as ([m items] & He & H).
  apply in_map_iff in H. destruct H as (item & <- & Hi).
  exists m, items, item. auto.
Qed.

(** In a well-formed dictionary a binding is reported exactly when its
    own test says so. *)
Lemma reported_iff (content : str) (imports : dict) (module : str)
  (items : list str) (item : str) :
  well_formed imports -> In (module, items) imports -> In item items ->
  In (describe item module) (find_unused_imports content imports) <->
  unused_item (content_without_imports content) item = true.
Proof.
  intros Hwf Hm Hi. rewrite find_unused_imports_flat. split.
  - intros H. apply reported_from in H.
    destruct H as (m' & items' & item' & He & Hf & E).
    destruct Hwf as [_ Hq]. rewrite Forall_forall in Hq.
    apply describe_inj in E.
    + destruct E as [-> _]. apply filter_In in Hf. tauto.
    + apply Hq. change module with (fst (module, items)). now apply in_map.
    + apply Hq. change m' with (fst (m', items')). now apply in_map.
  - intros H. apply in_flat_map. exists (module, items). split; [assumption|].
    simpl. apply (in_map (fun x => describe x module)).
    apply filter_In. auto.
Qed.

Lemma sentinel_not_reported (g : list str -> list str) (imports : dict)
  (module : str) :
  well_formed imports -> In module (keys imports) ->
  (forall items, ~ In side_effect (g items)) ->
  ~ In (describe side_effect module)
       (flat_map (fun e => List.map (fun item => describe item (fst e))
                             (g (snd e))) imports).
Proof.
  intros [_ Hq] Hm Hg H. apply reported_from in H.
  destruct H as (m & items & item & He & Hi & E).
  rewrite Forall_forall in Hq.
  apply describe_inj in E.
  - destruct E as [<- _]. now apply Hg in Hi.
  - now apply Hq.
  - apply Hq. change m with (fst (m, items)). now apply in_map.
Qed.

(** C5.  For every file text and every module of its dictionary, the
    description of the sentinel for that module is in neither list: a
    bare import is reported neither as unused nor as a duplicate, however
    often it recurs. *)
Theorem side_effect_never_reported (content module : str) :
  In module (keys (extract_imports content)) ->
  ~ In (describe side_effect module)
       (find_unused_imports content (extract_imports content)) /\
  ~ In (describe side_effect module)
       (find_duplicate_imports (extract_imports content)).
Proof.
  intros Hm. pose proof (extract_imports_well_formed content) as Hwf. split.
  - rewrite find_unused_imports_flat.
    apply sentinel_not_reported; auto.
    intros items H. apply filter_In in H. destruct H as [_ H].
    rewrite unused_item_sentinel in H. discriminate.
  - rewrite find_duplicate_imports_flat.
    apply sentinel_not_reported; auto.
    intros items. apply repeats_no_sentinel.
Qed.

(** ** Repeated unused bindings *)

Lemma unused_item_key (cwi item : str) :
  unused_item cwi item =
  negb (str_eqb item side_effect)
  && negb (search (word_pattern (usage_key item)) cwi).
Proof.
  unfold unused_item, usage_key.
  destruct (str_eqb item side_effect); [reflexivity|].
  now destruct (startswith star_as item).
Qed.

Lemma count_filter (f : str -> bool) (t : str) (l : list str) :
  count t (filter f l) = if f t then count t l else 0.
Proof.
  unfold count. induction l as [|x l IH]; simpl.
  - now destruct (f t).
  - destruct (f x) eqn:Fx; simpl; destruct (str_eq_dec x t) as [->|Hx];
      rewrite ?IH; try rewrite Fx; try reflexivity;
      now destruct (f t).
Qed.

Lemma dict_get_entry (m : str) (d : dict) :
  dict_get m d <> [] -> In (m, dict_get m d) d.
Proof.
  induction d as [|[k v] d IH]; simpl; [congruence|].
  destruct (str_eqb k m) eqn:E.
  - apply str_eqb_eq in E. subst. now left.
  - intros H. right. now apply IH.
Qed.

Lemma count_le_length (t : str) (l : list str) : count t l <= List.length l.
Proof.
  unfold count. induction l as [|x l IH]; simpl; [lia|].
  destruct (str_eq_dec x t); lia.
Qed.

Lemma total_ge (g : file -> list str) (ts_files : list file) (f : file) :
  In f ts_files -> List.length (g f) <= total g ts_files.
Proof.
  unfold total. induction ts_files as [|f' fs IH]; simpl; [tauto|].
  intros [->|H]; [lia|]. apply IH in H. lia.
Qed.

(** C10, for the names the search takes as whole words.  Take a name
    that begins and ends with a character of a word, is not the sentinel
    and does not occur in the stripped text as a whole word.  A binding
    of that name, or the namespace binding of that name, that
    [extract_imports] lists [k] times for a module is reported [k]
    times; in a scan that reads the file each of the [k] entries is
    counted in the total of unused imports, and the run exits with
    status 1. *)
Theorem find_unused_imports_repeats (json_dump : Results -> str) (writable : str -> bool)
  (content module name item : str) (k : nat) :
  starts_and_ends_in_word name -> name <> side_effect ->
  item = name \/
  (Forall (fun c => isword c = true) name /\ item = star_as ++ name) ->
  ~ whole_word_in name (content_without_imports content) ->
  count item (dict_get module (extract_imports content)) = k -> 1 <= k ->
  count (describe item module)
        (find_unused_imports content (extract_imports content)) = k /\
  forall (ts_files : list file) (path : str),
    In (path, Some content) ts_files ->
    exists st,
      stats (snd (scan_directory ts_files init)) = Some st /\
      k <= total_unused_imports st /\
      snd (main json_dump writable ts_files) = 1.
Proof.
  intros Hw Hs Hitem Hnot Hk Hk1.
  assert (Hsearch : search (word_pattern name)
                           (content_without_imports content) = false).
  { destruct (search _ _) eqn:E; [|reflexivity].
    exfalso. apply Hnot. now apply search_word_pattern. }
  assert (Hu : unused_item (content_without_imports content) item = true).
  { destruct Hitem as [->|[Hn ->]].
    - rewrite unused_item_word by assumption. now rewrite Hsearch.
    - rewrite unused_item_namespace by assumption. now rewrite Hsearch. }
  assert (Hc : count (describe item module)
                 (find_unused_imports content (extract_imports content)) = k).
  { rewrite find_unused_imports_flat.
    rewrite (count_flat_map
               (filter (unused_item (content_without_imports content)))
               (extract_imports content) module
               (dict_get module (extract_imports content))).
    - now rewrite count_filter, Hu.
    - apply extract_imports_well_formed.
    - apply dict_get_entry. intros E. rewrite E in Hk. simpl in Hk. lia. }
  split; [exact Hc|].
  intros ts_files path Hin.
  assert (Hle : k <= total unused_of ts_files).
  { etransitivity; [|apply (total_ge unused_of ts_files _ Hin)].
    rewrite unused_of_readable, <- Hc. apply count_le_length. }
  rewrite main_status, scan_directory_spec. cbn [stats].
  eexists. split; [reflexivity|]. cbn [total_unused_imports].
  split; [exact Hle|].
  destruct (total unused_of ts_files); [lia|].
  now destruct (writable (text "import-check-report.json")).
Qed.

(** ** Aliased entries *)

Lemma split_from_first (sep : str) (x0 : char) (sep' : str) (a b cur : str) :
  sep = x0 :: sep' ->
  (forall pre post,
      a ++ sep ++ b = pre ++ sep ++ post -> List.length a <= List.length pre) ->
  nth 0 (split_from sep 0 cur (a ++ sep ++ b)) [] = rev cur ++ a.
Proof.
  intros ->. revert cur. induction a as [|x a IH]; intros cur Hfirst.
  - rewrite app_nil_r. simpl.
    now rewrite N.eqb_refl, startswith_app.
  - assert (P : startswith (x0 :: sep') (x :: a ++ (x0 :: sep') ++ b) = false).
    { destruct (startswith _ _) eqn:P; [|reflexivity].
      apply startswith_iff in P. destruct P as (t & P).
      specialize (Hfirst [] t P). simpl in Hfirst. lia. }
    change (split_from (x0 :: sep') 0 cur ((x :: a) ++ (x0 :: sep') ++ b))
      with (if startswith (x0 :: sep') (x :: a ++ (x0 :: sep') ++ b)
            then rev cur :: split_from (x0 :: sep')
                              (List.length (x0 :: sep') - 1) []
                              (a ++ (x0 :: sep') ++ b)
            else split_from (x0 :: sep') 0 (x :: cur)
                            (a ++ (x0 :: sep') ++ b)).
    rewrite P, IH.
    + simpl. now rewrite <- app_assoc.
    + intros pre post E.
      assert (E' : (x :: a) ++ (x0 :: sep') ++ b =
                   (x :: pre) ++ (x0 :: sep') ++ post)
        by (simpl; now f_equal).
      apply Hfirst in E'. simpl in E'. lia.
Qed.

Lemma split_first_occurrence (sep a s : str) :
  sep <> [] -> first_occurrence sep a s -> nth 0 (split sep s) [] = a.
Proof.
  intros Hsep [[b ->] Hfirst]. destruct sep as [|x0 sep']; [congruence|].
  unfold split. erewrite split_from_first; eauto.
Qed.

Lemma lstrip_suffix (s : str) : exists pre, s = pre ++ lstrip s.
Proof.
  induction s as [|c s [pre IH]]; simpl.
  - now exists [].
  - destruct (isspace c).
    + exists (c :: pre). simpl. now f_equal.
    + now exists [].
Qed.

Lemma strip_infix (s : str) : exists pre post, s = pre ++ strip s ++ post.
Proof.
  unfold strip, rstrip.
  destruct (lstrip_suffix s) as [pre Hpre].
  destruct (lstrip_suffix (rev (lstrip s))) as [post Hpost].
  exists pre, (rev post).
  rewrite <- rev_app_distr, <- Hpost, rev_involutive. exact Hpre.
Qed.

(** The text before the leftmost keyword, trimmed, does not start with
    the marker of a namespace binding, which holds the keyword. *)
Lemma before_alias_not_namespace (original s : str) :
  first_occurrence (text " as ") original s ->
  startswith star_as (strip original) = false.
Proof.
  intros [[b ->] Hfirst].
  destruct (startswith star_as (strip original)) eqn:P; [|reflexivity].
  apply startswith_iff in P. destruct P as (t & P).
  destruct (strip_infix original) as (pre & post & E).
  rewrite P in E.
  assert (E' : original ++ text " as " ++ b =
               (pre ++ [chr "*"]) ++ text " as " ++
               (t ++ post ++ text " as " ++ b)).
  { rewrite E at 1. repeat rewrite <- app_assoc. reflexivity. }
  apply Hfirst in E'. rewrite E in E'.
  repeat rewrite length_app in E'. simpl in E'. lia.
Qed.

(** ** Whole words *)

(** C4, as the code has it.  Take a name that begins and ends with a
    character of a word and is not the sentinel.  A binding of that name
    is left out of the unused list exactly when the name occurs in the
    stripped text as a whole word; so is a namespace binding whose name
    it is. *)
Theorem whole_word_matching (content : str) (imports : dict)
  (module : str) (items : list str) (name : str) :
  well_formed imports -> In (module, items) imports ->
  starts_and_ends_in_word name -> name <> side_effect ->
  (In name items ->
   ~ In (describe name module) (find_unused_imports content imports) <->
   whole_word_in name (content_without_imports content)) /\
  (Forall (fun c => isword c = true) name -> In (star_as ++ name) items ->
   ~ In (describe (star_as ++ name) module)
        (find_unused_imports content imports) <->
   whole_word_in name (content_without_imports content)).
Proof.
  intros Hwf Hm Hw Hs.
  pose proof (search_word_pattern name (content_without_imports content) Hw)
    as S.
  split; [intros Hi|intros Hn Hi];
    rewrite (reported_iff content imports module items _ Hwf Hm Hi).
  - rewrite unused_item_word by assumption. rewrite <- S.
    destruct (search _ _); simpl; split; congruence.
  - rewrite unused_item_namespace by assumption. rewrite <- S.
    destruct (search _ _); simpl; split; congruence.
Qed.

(** * Further properties *)

(** ** Texts without the keyword *)

Lemma contains_iff (e s : str) : contains e s = true <-> occurs e s.
Proof.
  unfold occurs. induction s as [|x s IH].
  - simpl. rewrite orb_false_r, startswith_iff. split.
    + intros (t & E). exists [], t. exact E.
    + intros (pre & post & E). destruct pre; [now exists post|discriminate].
  - change (contains e (x :: s)) with (startswith e (x :: s) || contains e s).
    rewrite orb_true_iff, IH, startswith_iff. split.
    + intros [(t & E)|(pre & post & E)].
      * exists [], t. exact E.
      * exists (x :: pre), post. simpl. now f_equal.
    + intros (pre & post & E). destruct pre as [|y pre].
      * left. now exists post.
      * right. injection E as _ E. now exists pre, post.
Qed.

Lemma contains_false_cons (e : str) (x : char) (s : str) :
  contains e (x :: s) = false ->
  startswith e (x :: s) = false /\ contains e s = false.
Proof.
  change (contains e (x :: s)) with (startswith e (x :: s) || contains e s).
  apply orb_false_elim.
Qed.

Lemma run_without_keyword (w : str) (p : pattern) (prev : option char)
  (s : str) :
  startswith w s = false -> run (lit_str w ++ p) prev s = None.
Proof. intros H. now rewrite run_lit, H. Qed.

Lemma finditer_without_keyword (w : str) (p : pattern) (s : str) :
  contains w s = false ->
  forall pos skip prev, finditer_from (lit_str w ++ p) pos skip prev s = [].
Proof.
  induction s as [|x s IH]; intros H pos skip prev.
  - destruct skip; simpl; [|reflexivity].
    rewrite run_without_keyword; [reflexivity|].
    simpl in H. now rewrite orb_false_r in H.
  - apply contains_false_cons in H. destruct H as [H1 H2].
    destruct skip; simpl.
    + rewrite run_without_keyword by assumption. now apply IH.
    + now apply IH.
Qed.

Lemma sub_without_keyword (w : str) (p : pattern) (s : str) :
  contains w s = false ->
  forall prev, sub_from (lit_str w ++ p) 0 prev s = s.
Proof.
  induction s as [|x s IH]; intros H prev; [reflexivity|].
  apply contains_false_cons in H. destruct H as [H1 H2].
  simpl. rewrite run_without_keyword by assumption.
  f_equal. now apply IH.
Qed.

(** X1.  A text in which the keyword import does not occur has no
    bindings: the dictionary is empty, nothing is stripped, and neither
    detector reports anything. *)
Theorem no_keyword_no_findings (path content : str) :
  contains (text "import") content = false ->
  extract_imports content = [] /\
  content_without_imports content = content /\
  unused_of (path, Some content) = [] /\
  duplicates_of (path, Some content) = [].
Proof.
  intros H.
  assert (E : extract_imports content = []).
  { unfold extract_imports, finditer, named_pattern, namespace_pattern,
      default_pattern, side_effect_pattern, lit.
    fold (lit_str (text "import")).
    now rewrite !finditer_without_keyword. }
  assert (C : content_without_imports content = content).
  { unfold content_without_imports, sub, strip_from_pattern,
      strip_bare_pattern, lit.
    fold (lit_str (text "import")).
    rewrite (sub_without_keyword _ _ content H).
    now rewrite (sub_without_keyword _ _ content H). }
  rewrite unused_of_readable, duplicates_of_readable, E. auto.
Qed.

(** ** The entries of the dictionary *)

Lemma matches_group_specs (p : pattern) :
  forall prev s gs rest,
    matches p prev s gs rest ->
    Forall2 (fun qk g => quant_ok (fst qk) (List.length g) /\
                         Forall (fun c => cls_match (snd qk) c = true) g)
            (group_specs p) gs.
Proof.
  induction p as [|a p IH]; intros prev s gs rest H; simpl in H.
  - destruct H as [-> _]. constructor.
  - destruct H as (u & s' & gs' & -> & Hc & H & ->).
    apply IH in H. destruct a as [q k [|]|]; simpl; auto.
    constructor; [|assumption]. destruct Hc. auto.
Qed.

Lemma finditer_groups (p : pattern) (content : str) (i : nat) (gs : list str) :
  In (i, gs) (finditer p content) ->
  Forall2 (fun qk g => quant_ok (fst qk) (List.length g) /\
                       Forall (fun c => cls_match (snd qk) c = true) g)
          (group_specs p) gs.
Proof.
  intros H. apply finditer_In in H. destruct H as (rest & H).
  now apply run_sound, matches_group_specs in H.
Qed.

Lemma plus_group_nonempty (q : quant) (k : cls) (g : str) :
  q = Plus -> quant_ok q (List.length g) -> g <> [].
Proof. intros -> H ->. simpl in H. lia. Qed.

(** The module specifier of a match: not empty, and without quotes. *)
Lemma module_group (p : pattern) (n : nat) (content : str)
  (m : nat * list str) :
  nth_error (group_specs p) (n - 1) = Some (Plus, NoneOf quotes) ->
  In m (finditer p content) ->
  group n (snd m) <> [] /\
  Forall (fun c => cls_match (NoneOf quotes) c = true) (group n (snd m)).
Proof.
  intros Hn Hin. destruct m as [i gs]. apply finditer_groups in Hin.
  simpl. unfold group. revert Hn Hin.
  generalize (group_specs p) as ks. generalize (n - 1) as j.
  intros j ks. revert j gs.
  induction ks as [|k ks IH]; intros [|j] gs Hn Hr; simpl in Hn;
    try discriminate; inversion Hr; subst; simpl.
  - injection Hn as ->. destruct H1 as [Hq Hf]. split; [|exact Hf].
    now apply (plus_group_nonempty Plus (NoneOf quotes)).
  - eapply IH; eauto.
Qed.

Lemma split_from_nonempty (sep : str) (s : str) :
  forall skip cur, split_from sep skip cur s <> [].
Proof.
  induction s as [|x s IH]; intros skip cur; simpl; [discriminate|].
  destruct skip; [|apply IH].
  destruct (startswith sep (x :: s)); [discriminate|apply IH].
Qed.

Lemma named_items_nonempty (s : str) : named_items s <> [].
Proof.
  unfold named_items, split. intros H. apply map_eq_nil in H.
  now apply split_from_nonempty in H.
Qed.

Lemma dict_extend_lists (m : str) (items : list str) (d : dict) :
  items <> [] -> Forall (fun e => snd e <> []) d ->
  Forall (fun e => snd e <> []) (dict_extend m items d).
Proof.
  intros Hi. induction d as [|[k v] d IH]; intros H; simpl.
  - repeat constructor. exact Hi.
  - inversion H; subst. destruct (str_eqb k m).
    + constructor; [|assumption]. simpl in *. intros E.
      apply app_eq_nil in E. tauto.
    + constructor; auto.
Qed.

Lemma fold_extend_lists {A} (key : A -> str) (val : A -> list str)
  (l : list A) (d : dict) :
  (forall x, val x <> []) -> Forall (fun e => snd e <> []) d ->
  Forall (fun e => snd e <> [])
         (fold_left (fun d x => dict_extend (key x) (val x) d) l d).
Proof.
  intros Hv. revert d. induction l as [|x l IH]; intros d H; simpl;
    [assumption|].
  apply IH. now apply dict_extend_lists.
Qed.

(** X2.  In the dictionary of any text no module specifier occurs twice,
    and every entry has a specifier that is not empty and holds neither
    quote, and a list of bindings that is not empty. *)
Theorem extract_imports_entries (content : str) :
  NoDup (keys (extract_imports content)) /\
  forall module items,
    In (module, items) (extract_imports content) ->
    module <> [] /\ ~ In quote1 module /\ ~ In quote2 module /\ items <> [].
Proof.
  split; [apply extract_imports_well_formed|].
  intros module items Hin. 
  assert (Hk : In module (keys (extract_imports content))).
  { change module with (fst (module, items)). now apply in_map. }
  assert (Hl : Forall (fun e : str * list str => snd e <> [])
                      (extract_imports content)).
  { unfold extract_imports, dict_append.
    repeat apply fold_extend_lists with
      (key := fun m : nat * list str => group _ (snd m));
      try (intros; discriminate); try constructor.
    intros x. apply named_items_nonempty. }
  rewrite Forall_forall in Hl. specialize (Hl _ Hin). simpl in Hl.
  assert (Hm : module <> [] /\
               Forall (fun c => cls_match (NoneOf quotes) c = true) module).
  { unfold extract_imports, dict_append in Hk.
    repeat (apply keys_fold_In with
              (key := fun m : nat * list str => group _ (snd m)) in Hk;
            destruct Hk as [Hk|(m & Hm & <-)];
            [|eapply module_group; [|eassumption]; reflexivity]).
    destruct Hk. }
  destruct Hm as [Hne Hf]. rewrite Forall_forall in Hf.
  repeat split; try assumption.
  - intros Hq. apply Hf in Hq. discriminate Hq.
  - intros Hq. apply Hf in Hq. discriminate Hq.
Qed.

(** ** Default and namespace imports *)

Lemma advance_last (P : char -> Prop) (u : str) :
  forall prev, u <> [] -> Forall P u ->
               exists x, advance prev u = Some x /\ P x.
Proof.
  induction u as [|x u IH]; intros prev Hne H; [congruence|].
  inversion H; subst. destruct u as [|y u].
  - exists x. auto.
  - rewrite advance_cons. apply IH; [discriminate|assumption].
Qed.

Lemma word_is_identifier (g : str) :
  g <> [] -> Forall (fun c => isword c = true) g -> starts_and_ends_in_word g.
Proof.
  intros Hne H. split.
  - destruct g as [|x g]; [congruence|]. now inversion H.
  - destruct (advance_last (fun c => isword c = true) g None Hne H)
      as (x & -> & Hx). exact Hx.
Qed.

(** The two groups of a match of the default or of the namespace pattern:
    a word, and a module specifier. *)
Lemma word_and_module (p : pattern) (content : str) (i : nat) (gs : list str) :
  group_specs p = [(Plus, Word); (Plus, NoneOf quotes)] ->
  In (i, gs) (finditer p content) ->
  group 1 gs <> [] /\ Forall (fun c => isword c = true) (group 1 gs).
Proof.
  intros Hp H. apply finditer_groups in H. rewrite Hp in H.
  inversion H as [|? g1 ? ? [Hq Hf] H']; subst. simpl in *.
  unfold group. simpl. split; [|exact Hf].
  intros ->. simpl in Hq. lia.
Qed.

Lemma pass_In (p : pattern) (n : nat) (bindings : list str -> list str)
  (content : str) (i : nat) (gs : list str) (b : str) :
  In (i, gs) (finditer p content) -> In b (bindings gs) ->
  In b (pass p n bindings content (group n gs)).
Proof.
  intros H Hb. unfold pass. apply in_concat. exists (bindings gs).
  split; [|exact Hb].
  apply (in_map (fun m : nat * list str => bindings (snd m)) _ (i, gs)).
  apply filter_In. split; [assumption|apply str_eqb_refl].
Qed.

Lemma listed_entry (content module item : str) :
  In item (dict_get module (extract_imports content)) ->
  In (module, dict_get module (extract_imports content))
     (extract_imports content).
Proof.
  intros H. apply dict_get_entry. intros E. rewrite E in H. destruct H.
Qed.

Lemma search_false_iff (name s : str) :
  starts_and_ends_in_word name ->
  negb (search (word_pattern name) s) = true <-> ~ whole_word_in name s.
Proof.
  intros Hw. rewrite <- (search_word_pattern name s Hw).
  destruct (search _ _); simpl; split; congruence.
Qed.

(** X3.  A default import, unless its name is the text of the sentinel,
    is reported as unused exactly when its name does not occur in the
    stripped text as a whole word. *)
Theorem default_import_reported (content : str) (i : nat) (gs : list str) :
  In (i, gs) (finditer default_pattern content) ->
  group 1 gs <> side_effect ->
  In (describe (group 1 gs) (group 2 gs))
     (find_unused_imports content (extract_imports content)) <->
  ~ whole_word_in (group 1 gs) (content_without_imports content).
Proof.
  intros H Hs.
  assert (Hw : starts_and_ends_in_word (group 1 gs)).
  { apply word_is_identifier;
      now apply (word_and_module default_pattern content i gs). }
  assert (Hin : In (group 1 gs)
                   (dict_get (group 2 gs) (extract_imports content))).
  { rewrite extract_imports_get. apply in_or_app. right.
    apply in_or_app. right. apply in_or_app. left.
    apply (pass_In default_pattern 2 (fun gs => [group 1 gs]) content i gs);
      [assumption|now left]. }
  rewrite (reported_iff content (extract_imports content) (group 2 gs)
             (dict_get (group 2 gs) (extract_imports content)) (group 1 gs)
             (extract_imports_well_formed content)
             (listed_entry _ _ _ Hin) Hin).
  rewrite unused_item_word by assumption.
  now apply search_false_iff.
Qed.

(** X4.  A namespace import is reported as unused exactly when the name
    it binds does not occur in the stripped text as a whole word. *)
Theorem namespace_import_reported (content : str) (i : nat) (gs : list str) :
  In (i, gs) (finditer namespace_pattern content) ->
  In (describe (star_as ++ group 1 gs) (group 2 gs))
     (find_unused_imports content (extract_imports content)) <->
  ~ whole_word_in (group 1 gs) (content_without_imports content).
Proof.
  intros H.
  destruct (word_and_module namespace_pattern content i gs eq_refl H)
    as [Hne Hf].
  assert (Hin : In (star_as ++ group 1 gs)
                   (dict_get (group 2 gs) (extract_imports content))).
  { rewrite extract_imports_get. apply in_or_app. right.
    apply in_or_app. left.
    apply (pass_In namespace_pattern 2 (fun gs => [star_as ++ group 1 gs])
                   content i gs); [assumption|now left]. }
  rewrite (reported_iff content (extract_imports content) (group 2 gs)
             (dict_get (group 2 gs) (extract_imports content))
             (star_as ++ group 1 gs)
             (extract_imports_well_formed content)
             (listed_entry _ _ _ Hin) Hin).
  rewrite unused_item_namespace by assumption.
  apply search_false_iff. now apply word_is_identifier.
Qed.

(** ** Where the findings come from *)

Lemma count_pos_In (t : str) (l : list str) : 1 <= count t l <-> In t l.
Proof.
  unfold count. split; intros H.
  - apply (count_occ_In str_eq_dec). lia.
  - apply (count_occ_In str_eq_dec) in H. lia.
Qed.

Lemma repeats_twice (items : list str) (item : str) :
  In item (repeats (empty_set str) items) <->
  item <> side_effect /\ 2 <= count item items.
Proof.
  split.
  - intros H.
    assert (Hs : item <> side_effect)
      by (intros ->; now apply repeats_no_sentinel in H).
    split; [assumption|].
    apply count_pos_In in H. rewrite count_repeats in H by assumption.
    simpl in H. lia.
  - intros [Hs H]. apply count_pos_In. rewrite count_repeats by assumption.
    simpl. lia.
Qed.

(** X5.  Every entry of the unused list describes a binding of the
    dictionary that is not the sentinel, and the list has at most one
    entry per binding. *)
Theorem unused_are_bindings (content : str) (imports : dict) :
  Forall (fun d => exists module items item,
              In (module, items) imports /\ In item items /\
              item <> side_effect /\ d = describe item module)
         (find_unused_imports content imports) /\
  List.length (find_unused_imports content imports) <=
  List.length (concat (List.map snd imports)).
Proof.
  rewrite find_unused_imports_flat. split.
  - apply Forall_forall. intros d H. apply reported_from in H.
    destruct H as (m & items & item & He & Hf & ->).
    apply filter_In in Hf. destruct Hf as [Hi Hu].
    exists m, items, item. repeat split; auto.
    intros ->. rewrite unused_item_sentinel in Hu. discriminate.
  - induction imports as [|[m items] imports IH]; simpl; [lia|].
    rewrite !length_app, length_map.
    pose proof (filter_length_le
                  (unused_item (content_without_imports content)) items).
    lia.
Qed.

(** X6.  Every entry of the duplicates list describes a text, other than
    the sentinel, that the list of its module holds at least twice. *)
Theorem duplicates_occur_twice (imports : dict) :
  Forall (fun d => exists module items item,
              In (module, items) imports /\ item <> side_effect /\
              2 <= count item items /\ d = describe item module)
         (find_duplicate_imports imports).
Proof.
  rewrite find_duplicate_imports_flat.
  apply Forall_forall. intros d H. apply reported_from in H.
  destruct H as (m & items & item & He & Hf & ->).
  apply repeats_twice in Hf. destruct Hf as [Hs Hc].
  exists m, items, item. auto.
Qed.

(** X7.  The duplicates list is empty exactly when no module lists a
    text, other than the sentinel, more than once. *)
Theorem no_duplicates_iff (imports : dict) :
  find_duplicate_imports imports = [] <->
  forall module items item,
    In (module, items) imports -> item <> side_effect ->
    count item items <= 1.
Proof.
  rewrite find_duplicate_imports_flat. split.
  - intros E module items item Hin Hs.
    destruct (le_lt_dec (count item items) 1) as [Hle|Hgt]; [assumption|].
    exfalso.
    assert (Hr : In item (repeats (empty_set str) items))
      by (apply repeats_twice; split; [assumption|lia]).
    assert (Hd : In (describe item module)
                    (flat_map (fun e => List.map
                                 (fun item => describe item (fst e))
                                 (repeats (empty_set str) (snd e))) imports)).
    { apply in_flat_map. exists (module, items). split; [assumption|].
      now apply (in_map (fun x => describe x module)). }
    rewrite E in Hd. destruct Hd.
  - intros H. induction imports as [|[m items] imports IH]; [reflexivity|].
    simpl. rewrite IH.
    + rewrite app_nil_r.
      destruct (repeats (empty_set str) items) as [|x l] eqn:R;
        [reflexivity|].
      exfalso.
      assert (Hx : In x (repeats (empty_set str) items))
        by (rewrite R; now left).
      apply repeats_twice in Hx. destruct Hx as [Hs Hc].
      specialize (H m items x (or_introl eq_refl) Hs). lia.
    + intros module its item Hin. apply (H module its item). now right.
Qed.

(** ** The stripped text *)

Lemma subseq_refl {A} (l : list A) : subseq l l.
Proof.
  induction l; [apply subseq_nil|now apply subseq_take].
Qed.

Lemma subseq_trans {A} (l1 l2 l3 : list A) :
  subseq l1 l2 -> subseq l2 l3 -> subseq l1 l3.
Proof.
  intros H12 H23. revert l1 H12.
  induction H23 as [|x l2 l3 H IH|x l2 l3 H IH]; intros l1 H12.
  - assumption.
  - constructor. now apply IH.
  - inversion H12; subst.
    + apply subseq_skip. now apply IH.
    + apply subseq_take. now apply IH.
Qed.

Lemma subseq_length {A} (l1 l2 : list A) :
  subseq l1 l2 -> List.length l1 <= List.length l2.
Proof. induction 1; simpl; lia. Qed.

Lemma sub_from_subseq (p : pattern) (s : str) :
  forall skip prev, subseq (sub_from p skip prev s) s.
Proof.
  induction s as [|x s IH]; intros skip prev; simpl; [constructor|].
  destruct skip as [|k]; [|apply subseq_skip; apply IH].
  destruct (run p prev (x :: s)) as [[gs rest]|];
    [|apply subseq_take; apply IH].
  match goal with
  | |- subseq (match ?e with O => _ | S _ => _ end) _ => destruct e
  end; [apply subseq_take|apply subseq_skip]; apply IH.
Qed.

(** X8.  Stripping only takes text away: the text searched for uses is
    the file text with some of its characters left out, in the same
    order, and is no longer than it. *)
Theorem content_without_imports_subseq (content : str) :
  subseq (content_without_imports content) content /\
  List.length (content_without_imports content) <= List.length content.
Proof.
  assert (H : subseq (content_without_imports content) content).
  { unfold content_without_imports, sub.
    eapply subseq_trans; apply sub_from_subseq. }
  split; [exact H|now apply subseq_length].
Qed.

(** ** The files of a scan *)

Lemma select_files_filter (glob : str -> list candidate)
  (exclude_patterns : option (list str)) :
  select_files glob exclude_patterns =
  let excl := match exclude_patterns with
              | None => default_exclude_patterns
              | Some l => l
              end in
  let kept := fun c : candidate =>
                negb (existsb (fun e => contains e (fst c)) excl) in
  List.map snd (filter kept (glob (text "**/*.ts"))) ++
  List.map snd (filter kept (glob (text "**/*.tsx"))).
Proof.
  unfold select_files.
  set (excl := match exclude_patterns with
               | None => default_exclude_patterns
               | Some l => l
               end).
  assert (L : forall l acc,
             fold_left (fun ts_files (file_path : candidate) =>
                          if existsb (fun e => contains e (fst file_path)) excl
                          then ts_files else ts_files ++ [snd file_path])
                       l acc =
             acc ++ List.map snd
                      (filter (fun c : candidate =>
                                 negb (existsb (fun e => contains e (fst c))
                                               excl)) l)).
  { induction l as [|c l IH]; intros acc; simpl.
    - now rewrite app_nil_r.
    - rewrite IH. destruct (existsb _ excl); simpl; [reflexivity|].
      now rewrite <- app_assoc. }
  simpl. now rewrite !L.
Qed.

(** X9.  A path is scanned exactly when the glob yields it for one of
    the two extensions and none of the excluded fragments occurs
    anywhere in its text; without a list of fragments the five default
    ones are used. *)
Theorem select_files_spec (glob : str -> list candidate)
  (exclude_patterns : option (list str)) (f : file) :
  In f (select_files glob exclude_patterns) <->
  exists path,
    (In (path, f) (glob (text "**/*.ts")) \/
     In (path, f) (glob (text "**/*.tsx"))) /\
    forall excl,
      In excl (match exclude_patterns with
               | None => default_exclude_patterns
               | Some l => l
               end) -> ~ occurs excl path.
Proof.
  rewrite select_files_filter. cbv zeta.
  set (excl := match exclude_patterns with
               | None => default_exclude_patterns
               | Some l => l
               end).
  assert (K : forall c : candidate,
             negb (existsb (fun e => contains e (fst c)) excl) = true <->
             forall e, In e excl -> ~ occurs e (fst c)).
  { intros c. rewrite negb_true_iff. split.
    - intros H e He Ho. apply contains_iff in Ho.
      assert (T : existsb (fun e => contains e (fst c)) excl = true)
        by (apply existsb_exists; eauto).
      congruence.
    - intros H. destruct (existsb _ excl) eqn:E; [|reflexivity].
      apply existsb_exists in E. destruct E as (e & He & Hc).
      apply contains_iff in Hc. now apply H in Hc. }
  rewrite in_app_iff, !in_map_iff. split.
  - intros [([path f'] & E & H)|([path f'] & E & H)]; simpl in E; subst f';
      apply filter_In in H; destruct H as [Hin Hk];
      pose proof (proj1 (K (path, f)) Hk) as Hk'; exists path; auto.
  - intros (path & [Hin|Hin] & Hk); [left|right]; exists (path, f);
      (split; [reflexivity|]); apply filter_In; split; try assumption;
      now apply (proj2 (K (path, f))).
Qed.

(** ** Files that cannot be read, and a checker used twice *)

Lemma entries_app (g : file -> list str) (l1 l2 : list file) :
  entries g (l1 ++ l2) = entries g l1 ++ entries g l2.
Proof. unfold entries. now rewrite filter_app, map_app. Qed.

Lemma total_app (g : file -> list str) (l1 l2 : list file) :
  total g (l1 ++ l2) = total g l1 + total g l2.
Proof. unfold total. now rewrite map_app, list_sum_app. Qed.

(** X10.  A file that cannot be read does not stop the scan and adds no
    finding: with it the lists of findings, the four counters of
    findings and the exit status are those of the scan without it, and
    only the number of files scanned counts it. *)
Theorem unreadable_file_skipped (json_dump : Results -> str) (writable : str -> bool)
  (before after : list file) (path : str) :
  let r := snd (scan_directory (before ++ (path, None) :: after) init) in
  let r' := snd (scan_directory (before ++ after) init) in
  unused_imports r = unused_imports r' /\
  duplicate_imports r = duplicate_imports r' /\
  snd (main json_dump writable (before ++ (path, None) :: after)) =
    snd (main json_dump writable (before ++ after)) /\
  exists st st',
    stats r = Some st /\ stats r' = Some st' /\
    total_files st = S (total_files st') /\
    files_with_unused st = files_with_unused st' /\
    files_with_duplicates st = files_with_duplicates st' /\
    total_unused_imports st = total_unused_imports st' /\
    total_duplicate_imports st = total_duplicate_imports st'.
Proof.
  cbv zeta. rewrite !main_status, !scan_directory_spec.
  assert (E : forall g : file -> list str, g (path, None) = [] ->
              entries g (before ++ (path, None) :: after) =
              entries g (before ++ after) /\
              total g (before ++ (path, None) :: after) =
              total g (before ++ after) /\
              filter (fun f => nonempty (g f))
                     (before ++ (path, None) :: after) =
              filter (fun f => nonempty (g f)) (before ++ after)).
  { intros g Hg. rewrite !entries_app, !total_app, !filter_app.
    unfold entries, total. simpl. rewrite Hg. simpl. auto. }
  destruct (E unused_of eq_refl) as (Eu & Tu & Fu).
  destruct (E duplicates_of eq_refl) as (Ed & Td & Fd).
  simpl. rewrite Eu, Ed, Tu, Td, Fu, Fd.
  repeat split. do 2 eexists. repeat split.
  rewrite !length_app. simpl. lia.
Qed.

Lemma scan_directory_from (ts_files : list file) (r : Results) :
  snd (scan_directory ts_files r) =
  {| unused_imports := unused_imports r ++ entries unused_of ts_files;
     duplicate_imports :=
       duplicate_imports r ++ entries duplicates_of ts_files;
     stats := Some {|
       total_files := List.length ts_files;
       files_with_unused :=
         List.length (filter (fun e : str * list str => nonempty (snd e))
                             (unused_imports r ++ entries unused_of ts_files));
       files_with_duplicates :=
         List.length (duplicate_imports r ++ entries duplicates_of ts_files);
       total_unused_imports := total unused_of ts_files;
       total_duplicate_imports := total duplicates_of ts_files |} |}.
Proof.
  unfold scan_directory, bind, get, put.
  pose proof (scan_loop_spec ts_files 0 0 r) as H.
  destruct (scan_loop ts_files 0 0 r) as [totals r'].
  destruct H as (-> & Hu & Hd & Hs). simpl in *.
  now rewrite Hu, Hd.
Qed.

Lemma entries_length (g : file -> list str) (ts_files : list file) :
  List.length (entries g ts_files) =
  List.length (filter (fun f => nonempty (g f)) ts_files).
Proof. unfold entries. apply length_map. Qed.

(** X11.  A second scan with the same checker adds its entries after
    those of the first.  Its statistics then give the totals of findings
    and the number of files of the second scan alone, and count the
    files with findings of both scans. *)
Theorem scan_twice (first second : list file) :
  let r1 := snd (scan_directory first init) in
  let r2 := snd (scan_directory second r1) in
  unused_imports r2 =
    unused_imports r1 ++ unused_imports (snd (scan_directory second init)) /\
  duplicate_imports r2 =
    duplicate_imports r1 ++
    duplicate_imports (snd (scan_directory second init)) /\
  exists st,
    stats r2 = Some st /\
    total_files st = List.length second /\
    total_unused_imports st =
      list_sum (List.map (fun f => List.length (unused_of f)) second) /\
    total_duplicate_imports st =
      list_sum (List.map (fun f => List.length (duplicates_of f)) second) /\
    files_with_unused st =
      List.length (filter (fun f => nonempty (unused_of f)) first) +
      List.length (filter (fun f => nonempty (unused_of f)) second) /\
    files_with_duplicates st =
      List.length (filter (fun f => nonempty (duplicates_of f)) first) +
      List.length (filter (fun f => nonempty (duplicates_of f)) second).
Proof.
  cbv zeta. rewrite scan_directory_from, !scan_directory_spec. simpl.
  repeat split. eexists. split; [reflexivity|]. simpl.
  rewrite filter_app, !entries_nonempty, !length_app, !entries_length.
  repeat split.
Qed.

(** ** The script *)

Lemma split_nl_line (s : str) :
  ~ In 10%N s -> forall cur, split_from nl 0 cur s = [rev cur ++ s].
Proof.
  induction s as [|x s IH]; intros H cur.
  - simpl. now rewrite app_nil_r.
  - change (split_from nl 0 cur (x :: s))
      with (if (10 =? x)%N && true
            then rev cur :: split_from nl 0 [] s
            else split_from nl 0 (x :: cur) s).
    destruct (N.eqb_spec 10 x) as [E|_];
      [exfalso; apply H; left; now symmetry|].
    simpl. rewrite IH by (intros Hin; apply H; now right).
    simpl. now rewrite <- app_assoc.
Qed.

Lemma split_nl_app (a b : str) :
  ~ In 10%N a ->
  forall cur, split_from nl 0 cur (a ++ nl ++ b) =
              (rev cur ++ a) :: split_from nl 0 [] b.
Proof.
  induction a as [|x a IH]; intros H cur.
  - simpl. now rewrite app_nil_r.
  - change (split_from nl 0 cur ((x :: a) ++ nl ++ b))
      with (if (10 =? x)%N && true
            then rev cur :: split_from nl 0 [] (a ++ nl ++ b)
            else split_from nl 0 (x :: cur) (a ++ nl ++ b)).
    destruct (N.eqb_spec 10 x) as [E|_];
      [exfalso; apply H; left; now symmetry|].
    simpl andb. cbv iota.
    rewrite IH by (intros Hin; apply H; now right).
    simpl. now rewrite <- app_assoc.
Qed.

(** The lines of a text joined from lines are those lines. *)
Lemma lines_join (l : str) (ls : list str) :
  Forall (fun x => ~ In 10%N x) (l :: ls) ->
  lines (join nl (l :: ls)) = l :: ls.
Proof.
  unfold lines, split. revert l.
  induction ls as [|y ls IH]; intros l H; inversion H as [|? ? Hl Hls]; subst.
  - simpl. rewrite app_nil_r. now rewrite split_nl_line.
  - change (join nl (l :: y :: ls)) with (l ++ nl ++ join nl (y :: ls)).
    rewrite split_nl_app by assumption. simpl. f_equal. now apply IH.
Qed.

Lemma join_trailing (x : str) (ls : list str) :
  join nl ((x ++ nl) :: ls) = join nl (x :: [] :: ls).
Proof. simpl. now rewrite <- app_assoc. Qed.

(** X14.  When no path and no finding holds a newline, the script is
    inert: each of its lines is empty or a comment. *)
Theorem fix_script_comments (r : Results) :
  (forall path unused,
      In (path, unused) (unused_imports r) ->
      ~ In 10%N path /\ forall u, In u unused -> ~ In 10%N u) ->
  Forall (fun line => line = [] \/ startswith (text "#") line = true)
         (lines (join nl (fix_script r))).
Proof.
  intros H. unfold fix_script.
  set (body := flat_map _ (unused_imports r)).
  assert (B : Forall (fun line => ~ In 10%N line /\
                        (line = [] \/ startswith (text "#") line = true))
                     body).
  { subst body. apply Forall_forall. intros line Hin.
    apply in_flat_map in Hin. destruct Hin as ([path unused] & He & Hin).
    destruct (H path unused He) as [Hp Hu]. simpl in Hin.
    destruct Hin as [<-|Hin].
    - split; [|now right]. intros Hn. simpl in Hn.
      repeat (destruct Hn as [Hn|Hn]; [discriminate Hn|]). contradiction.
    - apply in_app_or in Hin. destruct Hin as [Hin|[<-|[]]].
      + apply in_map_iff in Hin. destruct Hin as (u & <- & Hi).
        split; [|now right]. intros Hn. simpl in Hn.
        repeat (destruct Hn as [Hn|Hn]; [discriminate Hn|]).
        now apply (Hu u).
      + split; [intros []|now left]. }
  change ([text "#!/bin/bash";
           text "# Auto-generated script to remove unused imports";
           text "# Review before running!" ++ nl] ++ body)
    with (text "#!/bin/bash" ::
          text "# Auto-generated script to remove unused imports" ::
          (text "# Review before running!" ++ nl) :: body).
  change (join nl (text "#!/bin/bash" ::
                   text "# Auto-generated script to remove unused imports" ::
                   (text "# Review before running!" ++ nl) :: body))
    with (text "#!/bin/bash" ++ nl ++
          text "# Auto-generated script to remove unused imports" ++ nl ++
          join nl ((text "# Review before running!" ++ nl) :: body)).
  rewrite join_trailing.
  change (text "#!/bin/bash" ++ nl ++
          text "# Auto-generated script to remove unused imports" ++ nl ++
          join nl (text "# Review before running!" :: [] :: body))
    with (join nl (text "#!/bin/bash" ::
                   text "# Auto-generated script to remove unused imports" ::
                   text "# Review before running!" :: [] :: body)).
  rewrite lines_join.
  - repeat (constructor; [first [now right|now left]|]).
    eapply Forall_impl; [|exact B]. intros line [_ Hl]. exact Hl.
  - repeat (constructor;
            [intros Hn; simpl in Hn;
             repeat (destruct Hn as [Hn|Hn]; [discriminate Hn|]);
             contradiction|]).
    eapply Forall_impl; [|exact B]. intros line [Hl _]. exact Hl.
Qed.

(** ** The bindings of a named declaration *)

Lemma split_char_step (c x : char) (cur s : str) :
  split_from [c] 0 cur (x :: s) =
  if (c =? x)%N then rev cur :: split_from [c] 0 [] s
  else split_from [c] 0 (x :: cur) s.
Proof. simpl. now destruct (c =? x)%N. Qed.

Lemma occurs_refl (s : str) : occurs s s.
Proof. exists [], []. now rewrite app_nil_r. Qed.

Lemma occurs_prefix (a b : str) : occurs a (a ++ b).
Proof. now exists [], b. Qed.

Lemma occurs_trans (a b c : str) : occurs a b -> occurs b c -> occurs a c.
Proof.
  intros (p1 & q1 & ->) (p2 & q2 & ->). exists (p2 ++ p1), (q1 ++ q2).
  now rewrite <- !app_assoc.
Qed.

Lemma occurs_no_char (c : char) (a b : str) :
  occurs a b -> ~ In c b -> ~ In c a.
Proof.
  intros (p & q & ->) H Hin. apply H.
  apply in_or_app. right. apply in_or_app. now left.
Qed.

(** The pieces between the occurrences of one character are pieces of
    the text, and do not hold the character. *)
Lemma split_char_pieces (c : char) (s : str) :
  forall cur, ~ In c cur ->
    Forall (fun piece => occurs piece (rev cur ++ s) /\ ~ In c piece)
           (split_from [c] 0 cur s).
Proof.
  induction s as [|x s IH]; intros cur Hc.
  - simpl. constructor; [|constructor]. rewrite app_nil_r. split.
    + apply occurs_refl.
    + intros H. apply Hc. now apply in_rev.
  - rewrite split_char_step. destruct (N.eqb_spec c x) as [E|E].
    + constructor.
      * split; [apply occurs_prefix|]. intros H. apply Hc. now apply in_rev.
      * eapply Forall_impl; [|apply (IH []); intros []].
        intros piece [Ho Hn]. split; [|exact Hn].
        eapply occurs_trans; [exact Ho|].
        exists (rev cur ++ [x]), []. simpl.
        now rewrite app_nil_r, <- app_assoc.
    + assert (Hc' : ~ In c (x :: cur))
        by (intros [H|H]; [now apply E|now apply Hc]).
      eapply Forall_impl; [|apply (IH (x :: cur) Hc')].
      intros piece [Ho Hn]. split; [|exact Hn].
      simpl in Ho. now rewrite <- app_assoc in Ho.
Qed.

(** The first piece of any split is the start of the text. *)
Lemma split_first_prefix (sep s : str) :
  forall cur, exists a rest,
    s = a ++ rest /\ nth 0 (split_from sep 0 cur s) [] = rev cur ++ a.
Proof.
  induction s as [|x s IH]; intros cur.
  - exists [], []. simpl. now rewrite app_nil_r.
  - simpl. destruct (startswith sep (x :: s)).
    + exists [], (x :: s). simpl. now rewrite app_nil_r.
    + destruct (IH (x :: cur)) as (a & rest & -> & E).
      exists (x :: a), rest. rewrite E. simpl. now rewrite <- app_assoc.
Qed.

Lemma lstrip_head (s : str) : isspace_at (hd_error (lstrip s)) = false.
Proof.
  induction s as [|c s IH]; simpl; [reflexivity|].
  destruct (isspace c) eqn:E; [exact IH|]. simpl. exact E.
Qed.

Lemma rstrip_prefix (s : str) : exists post, s = rstrip s ++ post.
Proof.
  unfold rstrip. destruct (lstrip_suffix (rev s)) as [pre H].
  exists (rev pre). rewrite <- rev_app_distr, <- H. now rewrite rev_involutive.
Qed.

Lemma advance_rev_head (s : str) : advance None s = hd_error (rev s).
Proof.
  induction s as [|x s IH] using rev_ind; [reflexivity|].
  unfold advance. rewrite fold_left_app, rev_app_distr. reflexivity.
Qed.

(** A trimmed text neither starts nor ends with a space. *)
Lemma strip_trimmed (s : str) :
  isspace_at (hd_error (strip s)) = false /\
  isspace_at (advance None (strip s)) = false.
Proof.
  split.
  - unfold strip. destruct (rstrip_prefix (lstrip s)) as [post H].
    pose proof (lstrip_head s) as Hh. rewrite H in Hh.
    destruct (rstrip (lstrip s)); [reflexivity|exact Hh].
  - rewrite advance_rev_head. unfold strip, rstrip.
    rewrite rev_involutive. apply lstrip_head.
Qed.

(** X15.  Every binding of a named declaration is a piece of the text
    between the braces that holds no comma, and neither starts nor ends
    with a space; a declaration has at least one. *)
Theorem named_items_trimmed (imported_items : str) :
  named_items imported_items <> [] /\
  Forall (fun item =>
            occurs item imported_items /\ ~ In (chr ",") item /\
            isspace_at (hd_error item) = false /\
            isspace_at (advance None item) = false)
         (named_items imported_items).
Proof.
  split; [apply named_items_nonempty|].
  unfold named_items. apply Forall_forall. intros item Hin.
  apply in_map_iff in Hin. destruct Hin as (piece & <- & Hp).
  pose proof (split_char_pieces (chr ",") imported_items [] (fun H => H)) as P.
  rewrite Forall_forall in P. destruct (P piece Hp) as [Ho Hn].
  simpl in Ho.
  assert (Hc : occurs (clean_item piece) piece).
  { unfold clean_item, split.
    destruct (strip_infix piece) as (p1 & q1 & E1).
    destruct (split_first_prefix (text " as ") (strip piece) [])
      as (a & rest & E2 & E3).
    rewrite E3. simpl.
    destruct (strip_infix a) as (p2 & q2 & E4).
    eapply occurs_trans; [exists p2, q2; exact E4|].
    eapply occurs_trans; [apply (occurs_prefix a rest)|].
    rewrite <- E2. now exists p1, q1. }
  repeat split.
  - eapply occurs_trans; eassumption.
  - eapply occurs_no_char; eassumption.
  - apply strip_trimmed.
  - apply strip_trimmed.
Qed.

(** ** Aliased entries of a named declaration *)

Lemma clean_item_before_alias (entry original : str) :
  first_occurrence (text " as ") original (strip entry) ->
  clean_item entry = strip original.
Proof.
  intros H. unfold clean_item.
  rewrite (split_first_occurrence (text " as ") original); auto.
  discriminate.
Qed.

(** The bindings of one declaration are a segment of the list of its
    module. *)
Lemma pass_segment (p : pattern) (module_group : nat)
  (bindings : list str -> list str) (content : str) (i : nat)
  (gs : list str) :
  In (i, gs) (finditer p content) ->
  exists before after,
    pass p module_group bindings content (group module_group gs) =
    before ++ bindings gs ++ after.
Proof.
  unfold pass. intros H.
  assert (F : In (i, gs)
                 (filter (fun m => str_eqb (group module_group (snd m))
                                           (group module_group gs))
                         (finditer p content)))
    by (apply filter_In; split; [assumption|apply str_eqb_refl]).
  apply in_split in F. destruct F as (l1 & l2 & ->).
  rewrite map_app, concat_app. simpl. eauto.
Qed.

Lemma split_without (sep s : str) :
  ~ occurs sep s -> forall cur, split_from sep 0 cur s = [rev cur ++ s].
Proof.
  induction s as [|x s IH]; intros H cur.
  - simpl. now rewrite app_nil_r.
  - assert (P : startswith sep (x :: s) = false).
    { destruct (startswith sep (x :: s)) eqn:P; [|reflexivity].
      exfalso. apply H. apply startswith_iff in P. destruct P as (t & P).
      exists [], t. exact P. }
    change (split_from sep 0 cur (x :: s))
      with (if startswith sep (x :: s)
            then rev cur :: split_from sep (List.length sep - 1) [] s
            else split_from sep 0 (x :: cur) s).
    rewrite P, IH.
    + simpl. now rewrite <- app_assoc.
    + intros (pre & post & E). apply H. exists (x :: pre), post.
      simpl. now f_equal.
Qed.

Lemma lstrip_fixed (s : str) :
  isspace_at (hd_error s) = false -> lstrip s = s.
Proof.
  destruct s as [|c s]; [reflexivity|]. simpl. intros H. now rewrite H.
Qed.

(** Trimming a trimmed text changes nothing. *)
Lemma strip_strip (s : str) : strip (strip s) = strip s.
Proof.
  destruct (strip_trimmed s) as [Hh Hl].
  unfold strip at 1. rewrite (lstrip_fixed (strip s) Hh).
  unfold rstrip. rewrite lstrip_fixed.
  - apply rev_involutive.
  - now rewrite <- advance_rev_head.
Qed.

Lemma clean_item_whole (entry : str) :
  ~ occurs (text " as ") (strip entry) -> clean_item entry = strip entry.
Proof.
  intros H. unfold clean_item, split.
  rewrite split_without by assumption. simpl. apply strip_strip.
Qed.

(** C7, for the keyword between two spaces.  Take a named declaration of
    the file and one of the entries between its braces.  The bindings of
    the declaration are a segment of the list [extract_imports] gives
    for its module.  When the trimmed entry holds the keyword [ as ], a
    space on either side, the binding at the place of the entry is the
    text before the leftmost keyword, trimmed: the name before the alias
    and nothing of the alias; that name is also the identifier the search
    for uses looks for.  When the trimmed entry does not hold the keyword
    in that form, the binding is the whole trimmed entry. *)
Theorem named_alias_discarded (content : str) (i : nat) (gs : list str)
  (j : nat) (entry : str) :
  In (i, gs) (finditer named_pattern content) ->
  nth_error (split (text ",") (group 1 gs)) j = Some entry ->
  exists before after,
    dict_get (group 2 gs) (extract_imports content) =
      before ++ named_items (group 1 gs) ++ after /\
    (forall original,
        first_occurrence (text " as ") original (strip entry) ->
        nth_error (named_items (group 1 gs)) j = Some (strip original) /\
        usage_key (strip original) = strip original) /\
    (~ occurs (text " as ") (strip entry) ->
     nth_error (named_items (group 1 gs)) j = Some (strip entry)).
Proof.
  intros Hin Hj.
  destruct (pass_segment named_pattern 2
              (fun gs => named_items (group 1 gs)) content i gs Hin)
    as (before & after & E).
  assert (Hn : nth_error (named_items (group 1 gs)) j
               = Some (clean_item entry))
    by (unfold named_items; now rewrite nth_error_map, Hj).
  exists before.
  eexists (after ++ _).
  split; [|split].
  - rewrite extract_imports_get, E. repeat rewrite <- app_assoc. reflexivity.
  - intros original H. split.
    + now rewrite Hn, (clean_item_before_alias entry original).
    + unfold usage_key.
      now rewrite (before_alias_not_namespace original (strip entry)).
  - intros H. now rewrite Hn, clean_item_whole.
Qed.

(** ** The report *)

Lemma split_nl_break (a b : str) :
  forall cur, split_from nl 0 cur (a ++ nl ++ b) =
              split_from nl 0 cur a ++ split_from nl 0 [] b.
Proof.
  unfold nl. induction a as [|x a IH]; intros cur.
  - change ([] ++ [10%N] ++ b) with (10%N :: b).
    rewrite split_char_step. reflexivity.
  - change ((x :: a) ++ [10%N] ++ b) with (x :: a ++ [10%N] ++ b).
    rewrite !split_char_step. destruct (10 =? x)%N.
    + rewrite IH. reflexivity.
    + apply IH.
Qed.

Lemma lines_line (s : str) : ~ In 10%N s -> lines s = [s].
Proof. intros H. unfold lines, split. now rewrite split_nl_line. Qed.

Lemma lines_nl (s : str) : lines (nl ++ s) = [] :: lines s.
Proof. reflexivity. Qed.

Lemma print_lines_app (a b : list effect) :
  print_lines (a ++ b) = print_lines a ++ print_lines b.
Proof. apply flat_map_app. Qed.

(** The lines of the output are the lines of the prints; what follows the
    last line break is empty. *)
Lemma lines_stdout (es : list effect) :
  lines (stdout es) = print_lines es ++ [[]].
Proof.
  induction es as [|[s|name content] es IH]; [reflexivity| |exact IH].
  change (stdout (Print s :: es)) with ((s ++ nl) ++ stdout es).
  rewrite <- app_assoc. unfold lines, split in *.
  rewrite split_nl_break, IH. now rewrite app_assoc.
Qed.

Lemma printed_lines_prints (p : str) (es : list effect) :
  startswith p [] = false ->
  printed_lines p es = filter (startswith p) (print_lines es).
Proof.
  intros H. unfold printed_lines. rewrite lines_stdout, filter_app.
  simpl. rewrite H. apply app_nil_r.
Qed.

Lemma written_app (a b : list effect) :
  written (a ++ b) = written a ++ written b.
Proof. apply flat_map_app. Qed.

(** A number is printed in digits. *)
Lemma uint_line (d : Decimal.uint) :
  ~ In 10%N (text (NilEmpty.string_of_uint d)).
Proof.
  induction d; simpl; intros H; try contradiction;
    destruct H as [H|H]; try discriminate H; contradiction.
Qed.

Lemma str_of_nat_line (n : nat) : ~ In 10%N (str_of_nat n).
Proof.
  unfold str_of_nat. generalize (Nat.to_uint n). intros d.
  destruct d as [|d|d|d|d|d|d|d|d|d|d].
  - simpl. intros [H|[]]. discriminate H.
  - exact (uint_line (Decimal.D0 d)).
  - exact (uint_line (Decimal.D1 d)).
  - exact (uint_line (Decimal.D2 d)).
  - exact (uint_line (Decimal.D3 d)).
  - exact (uint_line (Decimal.D4 d)).
  - exact (uint_line (Decimal.D5 d)).
  - exact (uint_line (Decimal.D6 d)).
  - exact (uint_line (Decimal.D7 d)).
  - exact (uint_line (Decimal.D8 d)).
  - exact (uint_line (Decimal.D9 d)).
Qed.

Lemma app_line (a b : str) : ~ In 10%N a -> ~ In 10%N b -> ~ In 10%N (a ++ b).
Proof. intros Ha Hb H. apply in_app_or in H. tauto. Qed.

Lemma prints_lines (q : str) (us : list str) :
  ~ In 10%N q -> (forall u, In u us -> ~ In 10%N u) ->
  print_lines (List.map (fun u => Print (q ++ u)) us) = List.map (app q) us.
Proof.
  intros Hq. induction us as [|u us IH]; intros H; [reflexivity|].
  simpl. change (flat_map _ (List.map (fun u => Print (q ++ u)) us))
    with (print_lines (List.map (fun u => Print (q ++ u)) us)).
  rewrite lines_line by (apply app_line; [assumption|apply H; now left]).
  rewrite IH by (intros u' Hu'; apply H; now right). reflexivity.
Qed.

Lemma block_cons (q path : str) (us : list str) (l : list (str * list str)) :
  block q ((path, us) :: l) =
  Print (nl ++ text "[FILE] " ++ path) ::
  List.map (fun u => Print (q ++ u)) us ++ block q l.
Proof. reflexivity. Qed.

(** Paths and findings that hold no line break. *)
Lemma block_lines (q : str) (l : list (str * list str)) :
  ~ In 10%N q ->
  (forall path us, In (path, us) l ->
                   ~ In 10%N path /\ forall u, In u us -> ~ In 10%N u) ->
  print_lines (block q l) =
  flat_map (fun e : str * list str =>
              [] :: (text "[FILE] " ++ fst e) :: List.map (app q) (snd e)) l.
Proof.
  intros Hq. induction l as [|[path us] l IH]; intros H; [reflexivity|].
  destruct (H path us (or_introl eq_refl)) as [Hp Hu].
  rewrite block_cons.
  change (print_lines (Print (nl ++ text "[FILE] " ++ path) ::
                       List.map (fun u => Print (q ++ u)) us ++ block q l))
    with (lines (nl ++ text "[FILE] " ++ path) ++
          print_lines (List.map (fun u => Print (q ++ u)) us ++ block q l)).
  rewrite lines_nl, lines_line, print_lines_app, prints_lines, IH;
    try assumption.
  - reflexivity.
  - intros path' us' Hin. apply H. now right.
  - apply app_line; [|assumption].
    simpl. intros Hn.
    repeat (destruct Hn as [Hn|Hn]; [discriminate Hn|]). contradiction.
Qed.

Lemma filter_own (p : str) (l : list str) :
  filter (startswith p) (List.map (app p) l) = List.map (app p) l.
Proof.
  induction l as [|u l IH]; simpl; [reflexivity|].
  rewrite startswith_app. now f_equal.
Qed.

Lemma filter_other (p q : str) (l : list str) :
  (forall u, startswith p (q ++ u) = false) ->
  filter (startswith p) (List.map (app q) l) = [].
Proof.
  intros H. induction l as [|u l IH]; simpl; [reflexivity|].
  now rewrite H.
Qed.

Lemma filter_findings (p q : str) (l : list (str * list str)) :
  startswith p [] = false ->
  (forall u, startswith p (text "[FILE] " ++ u) = false) ->
  filter (startswith p)
         (flat_map (fun e : str * list str =>
                      [] :: (text "[FILE] " ++ fst e) ::
                      List.map (app q) (snd e)) l) =
  filter (startswith p) (List.map (app q) (concat (List.map snd l))).
Proof.
  intros H0 Hf. induction l as [|[path us] l IH]; [reflexivity|].
  change (flat_map (fun e : str * list str =>
                      [] :: (text "[FILE] " ++ fst e) ::
                      List.map (app q) (snd e)) ((path, us) :: l))
    with (([] :: (text "[FILE] " ++ path) :: List.map (app q) us) ++
          flat_map (fun e : str * list str =>
                      [] :: (text "[FILE] " ++ fst e) ::
                      List.map (app q) (snd e)) l).
  change (concat (List.map snd ((path, us) :: l)))
    with (us ++ concat (List.map snd l)).
  rewrite map_app. rewrite !filter_app.
  apply f_equal2; [|exact IH].
  cbn [filter]. now rewrite H0, Hf.
Qed.

(** The lines of a section that start with [p], when [p] starts none of
    its fixed lines. *)
Lemma section_lines (title p q ok : str) (l : list (str * list str)) :
  ~ In 10%N q ->
  (forall path us, In (path, us) l ->
                   ~ In 10%N path /\ forall u, In u us -> ~ In 10%N u) ->
  startswith p [] = false ->
  (forall u, startswith p (text "[FILE] " ++ u) = false) ->
  filter (startswith p) (lines (nl ++ rule) ++ lines title ++ lines rule)
    = [] ->
  filter (startswith p) (lines (nl ++ ok)) = [] ->
  filter (startswith p) (print_lines (report_section title q ok l)) =
  filter (startswith p) (List.map (app q) (concat (List.map snd l))).
Proof.
  intros Hq Hl H0 Hf Hh Hok. unfold report_section.
  destruct l as [|e l].
  - simpl nonempty. cbv iota.
    change (print_lines [Print (nl ++ ok)]) with (lines (nl ++ ok) ++ []).
    rewrite app_nil_r. exact Hok.
  - simpl nonempty. cbv iota.
    rewrite print_lines_app, filter_app, block_lines, filter_findings
      by assumption.
    change (print_lines [Print (nl ++ rule); Print title; Print rule])
      with (lines (nl ++ rule) ++ lines title ++ lines rule ++ []).
    rewrite app_nil_r, Hh. reflexivity.
Qed.

Lemma stat_line (label : str) (n : nat) :
  ~ In 10%N label ->
  lines (label ++ str_of_nat n) = [label ++ str_of_nat n].
Proof.
  intros H. apply lines_line, app_line; [assumption|apply str_of_nat_line].
Qed.

Lemma print_report_parts (json_dump : Results -> str) (writable : str -> bool)
  (r : Results) (st : Stats) :
  stats r = Some st ->
  print_report json_dump writable r =
  if writable (text "import-check-report.json")
  then (report_printed r st ++ report_saved (json_dump r), true)
  else (report_printed r st, false).
Proof.
  intros H. unfold print_report. rewrite H.
  destruct (writable (text "import-check-report.json")); [|reflexivity].
  unfold report_printed. repeat rewrite <- app_assoc. reflexivity.
Qed.

Lemma entries_findings (g : file -> list str) (ts_files : list file) :
  concat (List.map snd (entries g ts_files)) = concat (List.map g ts_files).
Proof.
  unfold entries. induction ts_files as [|f fs IH]; simpl; [reflexivity|].
  destruct (g f) eqn:E; simpl; [assumption|].
  rewrite E, IH. reflexivity.
Qed.

Lemma findings_total (g : file -> list str) (ts_files : list file) :
  List.length (concat (List.map g ts_files)) = total g ts_files.
Proof.
  unfold total. induction ts_files as [|f fs IH]; simpl; [reflexivity|].
  now rewrite length_app, IH.
Qed.

Lemma entries_In (g : file -> list str) (ts_files : list file)
  (path : str) (us : list str) :
  In (path, us) (entries g ts_files) ->
  exists f, In f ts_files /\ path = fst f /\ us = g f.
Proof.
  unfold entries. intros H. apply in_map_iff in H.
  destruct H as (f & E & Hf). apply filter_In in Hf.
  injection E as <- <-. exists f. tauto.
Qed.

(** The lines of the header and of the end of the report start with the
    mark of no finding. *)
Lemma head_lines (p : str) (st : Stats) :
  (forall u, startswith p (text "  Total files scanned: " ++ u) = false) ->
  (forall u, startswith p (text "  Files with unused imports: " ++ u)
             = false) ->
  (forall u, startswith p (text "  Files with duplicate imports: " ++ u)
             = false) ->
  (forall u, startswith p (text "  Total unused imports: " ++ u) = false) ->
  (forall u, startswith p (text "  Total duplicate imports: " ++ u)
             = false) ->
  filter (startswith p)
         (lines (nl ++ rule) ++ lines (text "IMPORT CHECK REPORT") ++
          lines rule ++ lines (nl ++ text "Statistics:")) = [] ->
  filter (startswith p) (print_lines (report_head st)) = [].
Proof.
  intros H1 H2 H3 H4 H5 Hh. unfold report_head.
  change (print_lines
            [Print (nl ++ rule); Print (text "IMPORT CHECK REPORT");
             Print rule; Print (nl ++ text "Statistics:");
             Print (text "  Total files scanned: "
                    ++ str_of_nat (total_files st));
             Print (text "  Files with unused imports: "
                    ++ str_of_nat (files_with_unused st));
             Print (text "  Files with duplicate imports: "
                    ++ str_of_nat (files_with_duplicates st));
             Print (text "  Total unused imports: "
                    ++ str_of_nat (total_unused_imports st));
             Print (text "  Total duplicate imports: "
                    ++ str_of_nat (total_duplicate_imports st))])
    with ((lines (nl ++ rule) ++ lines (text "IMPORT CHECK REPORT") ++
           lines rule ++ lines (nl ++ text "Statistics:")) ++
          lines (text "  Total files scanned: "
                 ++ str_of_nat (total_files st)) ++
          lines (text "  Files with unused imports: "
                 ++ str_of_nat (files_with_unused st)) ++
          lines (text "  Files with duplicate imports: "
                 ++ str_of_nat (files_with_duplicates st)) ++
          lines (text "  Total unused imports: "
                 ++ str_of_nat (total_unused_imports st)) ++
          lines (text "  Total duplicate imports: "
                 ++ str_of_nat (total_duplicate_imports st)) ++ []).
  rewrite !stat_line
    by (simpl; intros Hn;
        repeat (destruct Hn as [Hn|Hn]; [discriminate Hn|]); contradiction).
  rewrite filter_app, Hh. cbn [app filter]. now rewrite H1, H2, H3, H4, H5.
Qed.

(** The lines of a report that start with the mark [p] of a finding,
    which is the mark [q1] of the first section or not, and the mark
    [q2] of the second or not. *)
Lemma report_lines (json_dump : Results -> str) (writable : str -> bool)
  (p : str) (r : Results) (st : Stats) :
  (forall path us, In (path, us) (unused_imports r) ->
                   ~ In 10%N path /\ forall u, In u us -> ~ In 10%N u) ->
  (forall path us, In (path, us) (duplicate_imports r) ->
                   ~ In 10%N path /\ forall u, In u us -> ~ In 10%N u) ->
  stats r = Some st ->
  p = text "  [X] " \/ p = text "  [DUP] " ->
  printed_lines p (fst (print_report json_dump writable r)) =
  filter (startswith p)
         (List.map (app (text "  [X] "))
                   (concat (List.map snd (unused_imports r)))) ++
  filter (startswith p)
         (List.map (app (text "  [DUP] "))
                   (concat (List.map snd (duplicate_imports r)))).
Proof.
  intros Hu Hd Hst Hp.
  assert (E : fst (print_report json_dump writable r) =
              report_printed r st ++
              (if writable (text "import-check-report.json")
               then report_saved (json_dump r) else [])).
  { rewrite (print_report_parts json_dump writable r st Hst).
    destruct (writable _); [reflexivity|]. cbn [fst]. now rewrite app_nil_r. }
  rewrite E. clear E.
  assert (Hend : filter (startswith p)
                   (print_lines
                      (if writable (text "import-check-report.json")
                       then report_saved (json_dump r) else [])) = []).
  { destruct (writable _); [|reflexivity].
    destruct Hp as [-> | ->]; reflexivity. }
  rewrite printed_lines_prints by (destruct Hp as [-> | ->]; reflexivity).
  unfold report_printed.
  rewrite !print_lines_app, !filter_app, Hend, app_nil_r.
  rewrite head_lines;
    try (destruct Hp as [-> | ->]; intros; reflexivity).
  rewrite (section_lines (text "UNUSED IMPORTS") p (text "  [X] "));
    try assumption;
    try (destruct Hp as [-> | ->]; intros; reflexivity).
  2:{ simpl. intros Hn.
      repeat (destruct Hn as [Hn|Hn]; [discriminate Hn|]). contradiction. }
  rewrite (section_lines (text "DUPLICATE IMPORTS") p (text "  [DUP] "));
    try assumption;
    try (destruct Hp as [-> | ->]; intros; reflexivity).
  2:{ simpl. intros Hn.
      repeat (destruct Hn as [Hn|Hn]; [discriminate Hn|]). contradiction. }
  change (print_lines [Print (nl ++ rule)]) with (lines (nl ++ rule) ++ []).
  rewrite app_nil_r.
  replace (filter (startswith p) (lines (nl ++ rule))) with (@nil str)
    by (destruct Hp as [-> | ->]; reflexivity).
  simpl. now rewrite app_nil_r.
Qed.

(** X12.  When no path and no finding holds a line break, the report of
    a scan prints one line per finding, whether or not it can then be
    written: the lines of the output that start with the mark of an
    unused import are the entries of the unused lists of the files, in
    the order of the scan, and as many as the statistics announce; so
    are the lines of the duplicates. *)
Theorem report_lists_findings (json_dump : Results -> str) (writable : str -> bool)
  (ts_files : list file) :
  (forall f, In f ts_files ->
             ~ In 10%N (fst f) /\
             (forall u, In u (unused_of f) -> ~ In 10%N u) /\
             (forall u, In u (duplicates_of f) -> ~ In 10%N u)) ->
  let r := snd (scan_directory ts_files init) in
  let es := fst (print_report json_dump writable r) in
  printed_lines (text "  [X] ") es =
    List.map (app (text "  [X] ")) (concat (List.map unused_of ts_files)) /\
  printed_lines (text "  [DUP] ") es =
    List.map (app (text "  [DUP] "))
             (concat (List.map duplicates_of ts_files)) /\
  exists st,
    stats r = Some st /\
    List.length (printed_lines (text "  [X] ") es) = total_unused_imports st /\
    List.length (printed_lines (text "  [DUP] ") es)
      = total_duplicate_imports st.
Proof.
  intros H. cbv zeta.
  pose proof (scan_directory_spec ts_files) as R.
  set (r := snd (scan_directory ts_files init)) in *.
  assert (Hst : exists st, stats r = Some st /\
                  total_unused_imports st = total unused_of ts_files /\
                  total_duplicate_imports st = total duplicates_of ts_files)
    by (rewrite R; simpl; eexists; repeat split).
  destruct Hst as (st & Hst & Tu & Td).
  assert (Eu : unused_imports r = entries unused_of ts_files)
    by now rewrite R.
  assert (Ed : duplicate_imports r = entries duplicates_of ts_files)
    by now rewrite R.
  assert (Hu : forall path us, In (path, us) (unused_imports r) ->
                 ~ In 10%N path /\ forall u, In u us -> ~ In 10%N u).
  { intros path us Hin. rewrite Eu in Hin. apply entries_In in Hin.
    destruct Hin as (f & Hf & -> & ->). destruct (H f Hf) as (? & ? & ?).
    auto. }
  assert (Hd : forall path us, In (path, us) (duplicate_imports r) ->
                 ~ In 10%N path /\ forall u, In u us -> ~ In 10%N u).
  { intros path us Hin. rewrite Ed in Hin. apply entries_In in Hin.
    destruct Hin as (f & Hf & -> & ->). destruct (H f Hf) as (? & ? & ?).
    auto. }
  assert (X : printed_lines (text "  [X] ") (fst (print_report json_dump writable r)) =
              List.map (app (text "  [X] "))
                       (concat (List.map unused_of ts_files))).
  { rewrite (report_lines json_dump writable _ r st Hu Hd Hst (or_introl eq_refl)).
    rewrite filter_own, filter_other by (intros; reflexivity).
    now rewrite app_nil_r, Eu, entries_findings. }
  assert (D : printed_lines (text "  [DUP] ") (fst (print_report json_dump writable r)) =
              List.map (app (text "  [DUP] "))
                       (concat (List.map duplicates_of ts_files))).
  { rewrite (report_lines json_dump writable _ r st Hu Hd Hst (or_intror eq_refl)).
    rewrite filter_own, filter_other by (intros; reflexivity).
    now rewrite Ed, entries_findings. }
  rewrite X, D. repeat split. exists st.
  rewrite !length_map, !findings_total. auto.
Qed.

(** ** What a run writes *)

Lemma written_prints (l : list str) (q : str) :
  written (List.map (fun u => Print (q ++ u)) l) = [].
Proof. induction l; simpl; auto. Qed.

Lemma written_block (q : str) (l : list (str * list str)) :
  written (block q l) = [].
Proof.
  induction l as [|[path us] l IH]; [reflexivity|].
  rewrite block_cons. change (written (Print ?x :: ?y)) with (written y).
  now rewrite written_app, written_prints, IH.
Qed.

Lemma written_section (title q ok : str) (l : list (str * list str)) :
  written (report_section title q ok l) = [].
Proof.
  unfold report_section. destruct (nonempty l); [|reflexivity].
  rewrite written_app, written_block. reflexivity.
Qed.

Lemma written_printed (r : Results) (st : Stats) :
  written (report_printed r st) = [].
Proof.
  unfold report_printed. rewrite !written_app, !written_section.
  reflexivity.
Qed.

(** X13.  A run writes the report when that file can be written, and
    then the script when some import is unused and the script can be
    written; it writes nothing else, and no script without the report.
    It exits with status 0 when it wrote the report and no import is
    unused, and with status 1 in every other case. *)
Theorem main_writes (json_dump : Results -> str) (writable : str -> bool)
  (ts_files : list file) :
  let r := snd (scan_directory ts_files init) in
  let report := text "import-check-report.json" in
  let script := text "fix-unused-imports.sh" in
  exists st,
    stats r = Some st /\
    written (fst (main json_dump writable ts_files)) =
      (if writable report
       then (report, json_dump r) ::
            (if (0 <? total_unused_imports st) && writable script
             then [(script, join nl (fix_script r))] else [])
       else []) /\
    snd (main json_dump writable ts_files) =
      (if writable report && (total_unused_imports st =? 0) then 0 else 1).
Proof.
  cbv zeta. rewrite main_status. unfold main.
  pose proof (scan_directory_spec ts_files) as R.
  set (r := snd (scan_directory ts_files init)) in *.
  assert (Hst : exists st, stats r = Some st /\
                  total_unused_imports st = total unused_of ts_files)
    by (rewrite R; simpl; eexists; repeat split).
  destruct Hst as (st & Hst & Tu).
  assert (Hu : nonempty (unused_imports r) = (0 <? total unused_of ts_files))
    by (rewrite R; apply nonempty_entries).
  exists st. rewrite Tu. split; [exact Hst|]. split; [|reflexivity].
  rewrite (print_report_parts json_dump writable r st Hst).
  destruct (writable (text "import-check-report.json")).
  - unfold generate_fix_script. rewrite Hu.
    destruct (0 <? total unused_of ts_files).
    + destruct (writable (text "fix-unused-imports.sh")); cbn [fst andb];
        rewrite !written_app, written_printed; reflexivity.
    + cbn [fst andb]. rewrite !written_app, written_printed. reflexivity.
  - cbn [fst]. apply written_printed.
Qed.
End Checker.

(** * Concrete runs

    Texts without characters beyond ASCII, for which the two tables are
    never consulted. *)

Module Run.

Definition extract (content : str) : dict :=
  extract_imports ascii_only ascii_only content.
Definition unused (content : str) : list str :=
  find_unused_imports ascii_only ascii_only content (extract content).
Definition duplicates (content : str) : list str :=
  find_duplicate_imports (extract content).
Definition stripped (content : str) : str :=
  content_without_imports ascii_only ascii_only content.

Definition newline : str := [10%N].

(** A run in which both files can be written; the text of the report
    plays no part in what follows. *)
Definition main_ok (ts_files : list file) : list effect * nat :=
  main ascii_only ascii_only (fun _ => []) (fun _ => true) ts_files.

(** The end-to-end scenarios of the specification. *)
Example scenario_1 :
  let content := text "import { A, B } from 'm';" in
  unused content = [text "A from 'm'"; text "B from 'm'"] /\
  duplicates content = [].
Proof. vm_compute. auto. Qed.

Example scenario_2 :
  let content := text "import { A } from 'm';" ++ newline ++
                 text "import { A } from 'm';" ++ newline ++
                 text "console.log(A);" in
  unused content = [] /\ duplicates content = [text "A from 'm'"].
Proof. vm_compute. auto. Qed.

Example scenario_3 :
  let content := text "import * as NS from 'm';" ++ newline ++ text "NS.fn();" in
  extract content = [(text "m", [text "* as NS"])] /\
  unused content = [] /\ duplicates content = [].
Proof. vm_compute. auto. Qed.

Example scenario_4 :
  let content := text "import 'polyfill';" in
  extract content = [(text "polyfill", [side_effect])] /\
  unused content = [] /\ duplicates content = [] /\
  snd (main_ok [(text "a.ts", Some content)]) = 0.
Proof. vm_compute. auto. Qed.

Example whole_word_Foo :
  unused (text "import { Foo } from 'm'; FooBar(BarFoo);")
    = [text "Foo from 'm'"] /\
  unused (text "import { Foo } from 'm'; new Foo();") = [].
Proof. vm_compute. auto. Qed.

Example alias_entry :
  extract (text "import { A as B, C } from 'm';")
    = [(text "m", [text "A"; text "C"])].
Proof. vm_compute. reflexivity. Qed.

Example duplicates_exit_0 :
  let content := text "import { A } from 'm'; import { A } from 'm'; A();" in
  duplicates content = [text "A from 'm'"] /\
  snd (main_ok [(text "a.ts", Some content)]) = 0.
Proof. vm_compute. auto. Qed.



(** A name that starts with a dollar sign, imported twice and met only
    at the end of a longer name. *)
Definition dollar_name : str :=
  text "import { $http } from 'm'; import { $http } from 'm'; my$http();".

End Run.


(** C1, as the claim states it: the default declaration at position 0
    comes before the named one at position 19, and its binding is listed
    after. *)
Lemma declaration_order_violated :
  finditer ascii_only ascii_only default_pattern
           (text "import X from 'm'; import { A } from 'm';")
    = [(0, [text "X"; text "m"])] /\
  finditer ascii_only ascii_only named_pattern
           (text "import X from 'm'; import { A } from 'm';")
    = [(19, [text "A "; text "m"])] /\
  dict_get (text "m")
           (Run.extract (text "import X from 'm'; import { A } from 'm';"))
    = [text "A"; text "X"] /\
  declaration_order ascii_only ascii_only
                    (text "import X from 'm'; import { A } from 'm';")
                    (text "m")
    = [text "X"; text "A"].
Proof. vm_compute. auto. Qed.

(** C2: a named declaration written over several lines is extracted, and
    stays in the text searched; its binding is found there and not
    reported, though nothing else in the file names it. *)
Lemma multiline_import_not_stripped :
  let content := text "import {" ++ Run.newline ++ text "  A" ++ Run.newline ++
                 text "} from 'm';" in
  Run.extract content = [(text "m", [text "A"])] /\
  Run.stripped content = content /\
  Run.unused content = [].
Proof. vm_compute. auto. Qed.

(** C4, as the claim states it: the name has no metacharacter and occurs
    in the stripped text between two blanks, and the binding is reported
    as unused. *)
Lemma whole_word_violated :
  no_metachars (text "@x") /\
  Run.extract (text "import { @x } from 'm'; @x ")
    = [(text "m", [text "@x"])] /\
  whole_word_in ascii_only (text "@x")
                (Run.stripped (text "import { @x } from 'm'; @x ")) /\
  Run.unused (text "import { @x } from 'm'; @x ") = [text "@x from 'm'"].
Proof.
  split; [|split; [|split]].
  - repeat constructor; vm_compute; intuition discriminate.
  - vm_compute. reflexivity.
  - exists (text " "), (text " "). vm_compute. auto.
  - vm_compute. reflexivity.
Qed.

Lemma whole_word_matching_witness :
  (In (text "Foo") [text "Foo"; text "* as Foo"] ->
   ~ In (describe (text "Foo") (text "m"))
        (find_unused_imports ascii_only ascii_only
           (text "import { Foo } from 'm'; FooBar(BarFoo);")
           [(text "m", [text "Foo"; text "* as Foo"])]) <->
   whole_word_in ascii_only (text "Foo")
     (content_without_imports ascii_only ascii_only
        (text "import { Foo } from 'm'; FooBar(BarFoo);"))) /\
  (Forall (fun c => isword ascii_only c = true) (text "Foo") ->
   In (star_as ++ text "Foo") [text "Foo"; text "* as Foo"] ->
   ~ In (describe (star_as ++ text "Foo") (text "m"))
        (find_unused_imports ascii_only ascii_only
           (text "import { Foo } from 'm'; FooBar(BarFoo);")
           [(text "m", [text "Foo"; text "* as Foo"])]) <->
   whole_word_in ascii_only (text "Foo")
     (content_without_imports ascii_only ascii_only
        (text "import { Foo } from 'm'; FooBar(BarFoo);"))).
Proof.
  apply (whole_word_matching ascii_only ascii_only
           (text "import { Foo } from 'm'; FooBar(BarFoo);")
           [(text "m", [text "Foo"; text "* as Foo"])]
           (text "m") [text "Foo"; text "* as Foo"] (text "Foo")).
  - split.
    + repeat constructor; simpl; intuition discriminate.
    + repeat constructor; unfold quote_free; simpl; intuition discriminate.
  - left. reflexivity.
  - split; reflexivity.
  - discriminate.
Defined.

Lemma find_duplicate_imports_count_witness :
  count (describe (text "A") (text "m"))
        (find_duplicate_imports
           [(text "m", [text "A"; text "B"; text "A"; text "A"]);
            (text "n", [text "A"])]) = 3 - 1 /\
  ((forall e, In e [(text "m", [text "A"; text "B"; text "A"; text "A"]);
                    (text "n", [text "A"])] -> NoDup (snd e)) ->
   find_duplicate_imports
     [(text "m", [text "A"; text "B"; text "A"; text "A"]);
      (text "n", [text "A"])] = []).
Proof.
  apply (find_duplicate_imports_count
           [(text "m", [text "A"; text "B"; text "A"; text "A"]);
            (text "n", [text "A"])]
           (text "m") [text "A"; text "B"; text "A"; text "A"] (text "A") 3).
  - split.
    + repeat constructor; simpl; intuition discriminate.
    + repeat constructor; unfold quote_free; simpl; intuition discriminate.
  - left. reflexivity.
  - discriminate.
  - reflexivity.
  - lia.
Defined.

Lemma side_effect_never_reported_witness :
  ~ In (describe side_effect (text "polyfill"))
       (find_unused_imports ascii_only ascii_only
          (text "import 'polyfill'; import 'polyfill';")
          (extract_imports ascii_only ascii_only
             (text "import 'polyfill'; import 'polyfill';"))) /\
  ~ In (describe side_effect (text "polyfill"))
       (find_duplicate_imports
          (extract_imports ascii_only ascii_only
             (text "import 'polyfill'; import 'polyfill';"))).
Proof.
  apply (side_effect_never_reported ascii_only ascii_only
           (text "import 'polyfill'; import 'polyfill';") (text "polyfill")).
  vm_compute. left. reflexivity.
Defined.



(** C7, as the claim states it: an entry whose aliasing keyword is
    followed by a line break.  The binding keeps the alias. *)
Lemma alias_kept_across_lines :
  Run.extract (text "import { Foo as" ++ Run.newline ++
               text "  Bar } from 'm';")
    = [(text "m", [text "Foo as" ++ Run.newline ++ text "  Bar"])].
Proof. vm_compute. reflexivity. Qed.

Lemma named_alias_discarded_witness :
  exists before after,
    dict_get (group 2 [text "A as B, C "; text "m"])
             (extract_imports ascii_only ascii_only
                (text "import { A as B, C } from 'm';")) =
      before ++
      named_items ascii_only (group 1 [text "A as B, C "; text "m"]) ++
      after /\
    nth_error (named_items ascii_only
                 (group 1 [text "A as B, C "; text "m"])) 0
      = Some (strip ascii_only (text "A")) /\
    usage_key (strip ascii_only (text "A")) = strip ascii_only (text "A").
Proof.
  destruct (named_alias_discarded ascii_only ascii_only
              (text "import { A as B, C } from 'm';") 0
              [text "A as B, C "; text "m"] 0 (text "A as B"))
    as (before & after & E & Halias & _).
  - vm_compute. left. reflexivity.
  - vm_compute. reflexivity.
  - exists before, after. split; [exact E|].
    apply (Halias (text "A")). split.
    + exists (text "B"). vm_compute. reflexivity.
    + intros pre post H. destruct pre as [|c pre].
      * vm_compute in H. discriminate H.
      * simpl. lia.
Defined.

(** C8, as the claim states it: a run over one file with a bare import,
    in a directory where nothing can be written.  The total of unused
    imports is zero, and the run ends with status 1. *)
Lemma exit_status_write_failure :
  stats (snd (scan_directory ascii_only ascii_only
                [(text "a.ts", Some (text "import 'polyfill';"))] init))
    = Some {| total_files := 1;
              files_with_unused := 0;
              files_with_duplicates := 0;
              total_unused_imports := 0;
              total_duplicate_imports := 0 |} /\
  snd (main ascii_only ascii_only (fun _ => []) (fun _ => false)
            [(text "a.ts", Some (text "import 'polyfill';"))])
    = 1.
Proof. vm_compute. auto. Qed.

(** No occurrence of a name in a given text is a whole word: every place
    is tried. *)
Ltac no_whole_word :=
  let pre := fresh "pre" in
  let post := fresh "post" in
  let E := fresh "E" in
  let H1 := fresh "H" in
  let H2 := fresh "H" in
  intros (pre & post & E & H1 & H2);
  vm_compute in E;
  repeat (let c := fresh "c" in
          let Ec := fresh "Ec" in
          destruct pre as [|c pre];
          [ try discriminate E;
            vm_compute in H1; try discriminate H1;
            injection E as E; subst post;
            vm_compute in H2; discriminate H2
          | try discriminate E; injection E as Ec E; subst c ]).

(** C10, as the claim states it: the name is extracted twice for the
    module and has no whole-word occurrence in the stripped text, where
    it follows a letter; the search finds it there all the same, and it
    is reported not twice but not at all. *)
Lemma find_unused_imports_repeats_violated :
  text "$http" <> side_effect /\
  count (text "$http") (dict_get (text "m") (Run.extract Run.dollar_name))
    = 2 /\
  Run.stripped Run.dollar_name = text "  my$http();" /\
  ~ whole_word_in ascii_only (text "$http")
      (Run.stripped Run.dollar_name) /\
  count (describe (text "$http") (text "m")) (Run.unused Run.dollar_name)
    = 0 /\
  Run.unused Run.dollar_name = [].
Proof.
  split; [discriminate|]. split; [vm_compute; reflexivity|].
  split; [vm_compute; reflexivity|].
  split; [|split; vm_compute; reflexivity].
  no_whole_word.
Qed.

Lemma find_unused_imports_repeats_witness :
  count (describe (text "A") (text "m"))
        (find_unused_imports ascii_only ascii_only
           (text "import { A } from 'm'; import { A } from 'm';")
           (extract_imports ascii_only ascii_only
              (text "import { A } from 'm'; import { A } from 'm';"))) = 2 /\
  forall (ts_files : list file) (path : str),
    In (path, Some (text "import { A } from 'm'; import { A } from 'm';"))
       ts_files ->
    exists st,
      stats (snd (scan_directory ascii_only ascii_only ts_files init))
        = Some st /\
      2 <= total_unused_imports st /\
      snd (main ascii_only ascii_only (fun _ => []) (fun _ => true) ts_files)
        = 1.
Proof.
  apply (find_unused_imports_repeats ascii_only ascii_only
           (fun _ => []) (fun _ => true)
           (text "import { A } from 'm'; import { A } from 'm';")
           (text "m") (text "A") (text "A") 2).
  - split; reflexivity.
  - discriminate.
  - left. reflexivity.
  - no_whole_word.
  - vm_compute. reflexivity.
  - lia.
Defined.

(** * Concrete runs of the further properties *)

Module More.

(** The default fragments are looked for anywhere in the path: a file
    named about.ts holds the fragment out and is left out. *)
Example about_is_excluded :
  select_files (fun pattern =>
                  if str_eqb pattern (text "**/*.ts")
                  then [(text "src/about.ts", (text "src/about.ts", None));
                        (text "src/main.ts", (text "src/main.ts", None))]
                  else [])
               None
  = [(text "src/main.ts", None)].
Proof. vm_compute. reflexivity. Qed.

(** A finding that holds a newline puts a line into the script that is
    no comment. *)
Example newline_in_finding :
  lines (join nl (fix_script
                    {| unused_imports :=
                         [(text "a.ts", [text "x" ++ nl ++ text "y from 'm'"])];
                       duplicate_imports := [];
                       stats := None |}))
  = [text "#!/bin/bash";
     text "# Auto-generated script to remove unused imports";
     text "# Review before running!"; [];
     text "# Fix a.ts"; text "# Remove: x"; text "y from 'm'"; []].
Proof. vm_compute. reflexivity. Qed.

(** A finding that holds a line break prints more than one line, and
    the second can start with the mark of a finding. *)
Example newline_in_report :
  printed_lines (text "  [X] ")
    (fst (print_report (fun _ => []) (fun _ => true)
            {| unused_imports :=
                 [(text "a.ts",
                   [text "@a" ++ nl ++ text "  [X] b from 'm'"])];
               duplicate_imports := [];
               stats := Some {| total_files := 1;
                                files_with_unused := 1;
                                files_with_duplicates := 0;
                                total_unused_imports := 1;
                                total_duplicate_imports := 0 |} |}))
  = [text "  [X] @a"; text "  [X] b from 'm'"].
Proof. vm_compute. reflexivity. Qed.

(** A file with a binding imported twice and never used. *)
Definition sample : list file :=
  [(text "a.ts", Some (text "import { A } from 'm'; import { A } from 'm';"))].

End More.

Lemma no_keyword_no_findings_witness :
  extract_imports ascii_only ascii_only (text "export const x = 1;") = [] /\
  content_without_imports ascii_only ascii_only (text "export const x = 1;")
    = text "export const x = 1;" /\
  unused_of ascii_only ascii_only
            (text "a.ts", Some (text "export const x = 1;")) = [] /\
  duplicates_of ascii_only ascii_only
                (text "a.ts", Some (text "export const x = 1;")) = [].
Proof.
  apply (no_keyword_no_findings ascii_only ascii_only (text "a.ts")
           (text "export const x = 1;")).
  vm_compute. reflexivity.
Defined.

Lemma default_import_reported_witness :
  In (describe (group 1 [text "X"; text "m"]) (group 2 [text "X"; text "m"]))
     (find_unused_imports ascii_only ascii_only
        (text "import X from 'm'; Xy();")
        (extract_imports ascii_only ascii_only
           (text "import X from 'm'; Xy();"))) <->
  ~ whole_word_in ascii_only (group 1 [text "X"; text "m"])
      (content_without_imports ascii_only ascii_only
         (text "import X from 'm'; Xy();")).
Proof.
  apply (default_import_reported ascii_only ascii_only
           (text "import X from 'm'; Xy();") 0 [text "X"; text "m"]).
  - vm_compute. left. reflexivity.
  - discriminate.
Defined.

Lemma namespace_import_reported_witness :
  In (describe (star_as ++ group 1 [text "NS"; text "m"])
               (group 2 [text "NS"; text "m"]))
     (find_unused_imports ascii_only ascii_only
        (text "import * as NS from 'm'; NS.f();")
        (extract_imports ascii_only ascii_only
           (text "import * as NS from 'm'; NS.f();"))) <->
  ~ whole_word_in ascii_only (group 1 [text "NS"; text "m"])
      (content_without_imports ascii_only ascii_only
         (text "import * as NS from 'm'; NS.f();")).
Proof.
  apply (namespace_import_reported ascii_only ascii_only
           (text "import * as NS from 'm'; NS.f();") 0 [text "NS"; text "m"]).
  vm_compute. left. reflexivity.
Defined.

Lemma fix_script_comments_witness :
  Forall (fun line => line = [] \/ startswith (text "#") line = true)
         (lines (join nl (fix_script
                            {| unused_imports :=
                                 [(text "a.ts", [text "A from 'm'"])];
                               duplicate_imports := [];
                               stats := None |}))).
Proof.
  apply (fix_script_comments
           {| unused_imports := [(text "a.ts", [text "A from 'm'"])];
              duplicate_imports := [];
              stats := None |}).
  intros path unused [E|[]]. injection E as <- <-. split.
  - vm_compute. intuition discriminate.
  - intros u [<-|[]]. vm_compute. intuition discriminate.
Defined.

Lemma report_lists_findings_witness :
  printed_lines (text "  [X] ")
    (fst (print_report (fun _ => []) (fun _ => true)
            (snd (scan_directory ascii_only ascii_only More.sample init)))) =
    List.map (app (text "  [X] "))
             (concat (List.map (unused_of ascii_only ascii_only)
                               More.sample)) /\
  printed_lines (text "  [DUP] ")
    (fst (print_report (fun _ => []) (fun _ => true)
            (snd (scan_directory ascii_only ascii_only More.sample init)))) =
    List.map (app (text "  [DUP] "))
             (concat (List.map (duplicates_of ascii_only ascii_only)
                               More.sample)) /\
  exists st,
    stats (snd (scan_directory ascii_only ascii_only More.sample init))
      = Some st /\
    List.length
      (printed_lines (text "  [X] ")
         (fst (print_report (fun _ => []) (fun _ => true)
                 (snd (scan_directory ascii_only ascii_only More.sample
                                      init)))))
      = total_unused_imports st /\
    List.length
      (printed_lines (text "  [DUP] ")
         (fst (print_report (fun _ => []) (fun _ => true)
                 (snd (scan_directory ascii_only ascii_only More.sample
                                      init)))))
      = total_duplicate_imports st.
Proof.
  apply (report_lists_findings ascii_only ascii_only
           (fun _ => []) (fun _ => true) More.sample).
  intros f [<-|[]]. split; [|split].
  - vm_compute. intuition discriminate.
  - intros u Hu. vm_compute in Hu.
    destruct Hu as [<-|[<-|[]]]; vm_compute; intuition discriminate.
  - intros u Hu. vm_compute in Hu.
    destruct Hu as [<-|[]]; vm_compute; intuition discriminate.
Defined.
